(** * github-leak-scanner: the scan orchestrator of [src/monitor.js]

    A shallow embedding of the [Monitor] class: the scheduler ([start],
    [stop]), the tick ([check]), the two source connectors
    ([scanCodeSearch], [scanGists]) and the per-item analysis pipeline
    ([analyzeContent]).

    JavaScript effects are made explicit.  A method is a function from the
    state to an outcome (a returned value or a thrown error) and a new state;
    [try]/[catch] keeps the state the body reached when it threw, as the
    runtime does.  Local [let] variables that are assigned inside a [try]
    and read after it live in a local frame next to the global state. *)

From Stdlib Require Import List String ZArith Bool Arith Lia RelationClasses.
Import ListNotations.
Open Scope string_scope.
Open Scope list_scope.

(** ** Outcomes and the method monad *)

(** [error.message] is all the code ever reads of an error. *)
Definition Error := string.

Inductive Outcome (A : Type) : Type :=
| Ret (a : A)
| Throw (e : Error).
Arguments Ret {A} a.
Arguments Throw {A} e.

Definition M (S A : Type) : Type := S -> Outcome A * S.

Definition ret {S A} (a : A) : M S A := fun s => (Ret a, s).

Definition throw {S A} (e : Error) : M S A := fun s => (Throw e, s).

Definition bind {S A B} (m : M S A) (k : A -> M S B) : M S B :=
  fun s =>
    match m s with
    | (Ret a, s') => k a s'
    | (Throw e, s') => (Throw e, s')
    end.

Declare Scope js_scope.
Delimit Scope js_scope with js.
Notation "x <- m ;; k" := (bind m (fun x => k))
  (at level 61, m at next level, right associativity) : js_scope.
Notation "m ;; k" := (bind m (fun _ => k))
  (at level 61, right associativity) : js_scope.
Open Scope js_scope.

(** [try { body } catch (error) { handler }] *)
Definition try_catch {S A} (body : M S A) (handler : Error -> M S A) : M S A :=
  fun s =>
    match body s with
    | (Ret a, s') => (Ret a, s')
    | (Throw e, s') => handler e s'
    end.

Definition gets {S A} (f : S -> A) : M S A := fun s => (Ret (f s), s).

Definition modify {S} (f : S -> S) : M S unit := fun s => (Ret tt, f s).

(** An expression that may throw and has no other effect. *)
Definition of_outcome {S A} (o : Outcome A) : M S A := fun s => (o, s).

(** [for (const x of xs) { body }] over an array *)
Fixpoint for_of {S A} (xs : list A) (body : A -> M S unit) : M S unit :=
  match xs with
  | [] => ret tt
  | x :: rest => body x ;; for_of rest body
  end.

(** [if (c) { m }] without an [else] *)
Definition when {S} (c : bool) (m : M S unit) : M S unit :=
  if c then m else ret tt.

(** *** Local frames *)

(** Run a method of the object inside a function that has locals [L]. *)
Definition lift {L S A} (m : M S A) : M (L * S) A :=
  fun ls =>
    let (o, s') := m (snd ls) in (o, (fst ls, s')).

Definition local {L S} : M (L * S) L := gets fst.

Definition set_local {L S} (f : L -> L) : M (L * S) unit :=
  modify (fun ls => (f (fst ls), snd ls)).

(** A function body with its locals initialised to [init]. *)
Definition with_locals {L S A} (init : L) (body : M (L * S) A) : M S A :=
  fun s =>
    let (o, ls) := body (init, s) in (o, snd ls).

(** ** JavaScript values the code tests for truthiness *)

(** A property that holds a string or is [undefined]. *)
Definition JsString := option string.

Definition truthy (v : JsString) : bool :=
  match v with
  | Some s => negb (String.eqb s "")
  | None => false
  end.

(** [a || b] on two string-or-undefined values *)
Definition js_or (a b : JsString) : JsString :=
  if truthy a then a else b.

(** [v || ''] *)
Definition or_empty (v : JsString) : string :=
  match v with
  | Some s => s
  | None => ""
  end.

(** [s.includes(d)] *)
Fixpoint includes (s d : string) : bool :=
  String.prefix d s ||
  match s with
  | EmptyString => false
  | String _ rest => includes rest d
  end.

(** ** Data model *)

(** [new Date()]: milliseconds since the epoch; [toISOString] is a fixed
    rendering of it and is left implicit. *)
Definition Timestamp := Z.

Inductive ItemType := code | gist.

(** The objects the connectors push: [{type:'code', repository, path, url,
    contentUrl}] and [{type:'gist', id, filename, url, content}]. *)
Inductive Item :=
| CodeResult (repository path url contentUrl : JsString)
| GistResult (id : JsString) (filename : string) (url content : JsString).

Definition item_type (i : Item) : ItemType :=
  match i with
  | CodeResult _ _ _ _ => code
  | GistResult _ _ _ _ => gist
  end.

Definition item_repository (i : Item) : JsString :=
  match i with
  | CodeResult r _ _ _ => r
  | GistResult _ _ _ _ => None
  end.

Definition item_id (i : Item) : JsString :=
  match i with
  | CodeResult _ _ _ _ => None
  | GistResult g _ _ _ => g
  end.

Definition item_path (i : Item) : JsString :=
  match i with
  | CodeResult _ p _ _ => p
  | GistResult _ _ _ _ => None
  end.

Definition item_filename (i : Item) : JsString :=
  match i with
  | CodeResult _ _ _ _ => None
  | GistResult _ f _ _ => Some f
  end.

Definition item_url (i : Item) : JsString :=
  match i with
  | CodeResult _ _ u _ => u
  | GistResult _ _ u _ => u
  end.

Definition item_contentUrl (i : Item) : JsString :=
  match i with
  | CodeResult _ _ _ c => c
  | GistResult _ _ _ _ => None
  end.

Definition item_content (i : Item) : JsString :=
  match i with
  | CodeResult _ _ _ _ => None
  | GistResult _ _ _ c => c
  end.

Record Finding := {
  timestamp : Timestamp;
  type : ItemType;
  source : JsString;
  path : JsString;
  url : JsString;
  matchedDomains : list string;
  credentials : list string;
  snippet : string
}.

(** *** What the platform's API sends back *)

Record Repository := { full_name : JsString }.

(** An element of [response.data.items] of [/search/code]; [repository] may
    be missing, and then reading [item.repository.full_name] throws. *)
Record SearchItem := {
  si_repository : option Repository;
  si_path : JsString;
  si_html_url : JsString;
  si_url : JsString
}.

Record FileData := { fd_content : JsString }.

(** An element of [response.data] of [/gists/public]; [files] may be
    missing, and then [Object.entries(gist.files)] throws. *)
Record Gist := {
  g_id : JsString;
  g_html_url : JsString;
  g_files : option (list (string * FileData))
}.

(** [response.data], by shape: [null], an object with an optional [items]
    array, an array of gists, an object with an optional [content]. *)
Inductive Data :=
| DNull
| DSearch (items : option (list SearchItem))
| DGists (gists : list Gist)
| DFile (content : JsString).

(** One call of [this.github.get(url, { params })]; the token is the one the
    client was created with. *)
Record Request := {
  req_url : string;
  req_q : JsString;
  req_per_page : option Z;
  req_token : JsString
}.

(** ** Console and network trace *)

Inductive Line :=
| LStarting
| LScanning (ts : Timestamp)
| LSearchingCode
| LErrorCode (message : Error)
| LScanningGists
| LErrorGists (message : Error)
| LScanned (totalScanned threatsFound : nat)
| LSearchError (domain : string) (message : Error)
| LGistsError (message : Error)
| LAlert (f : Finding)
| LSingleScan
| LSummary (total : nat)
| LDetails
| LDetail (f : Finding)
| LMonitoring (interval : Z)
| LPressCtrlC.

Inductive Event :=
| EGet (r : Request)
| ELog (l : Line)
| EError (l : Line).

(** ** The Monitor object *)

Definition TimerId := nat.

Record Monitor := {
  domains : list string;
  interval : Z;
  verbose : bool;
  once : bool;
  token : JsString;
  isRunning : bool;
  lastCheck : option Timestamp;
  findings : list Finding;
  intervalId : option TimerId
}.

Record Options := {
  opt_interval : option Z;
  opt_verbose : option bool;
  opt_once : option bool;
  opt_token : JsString
}.

(** [constructor(domains, options = {})] *)
Definition constructor (ds : list string) (options : Options) : Monitor :=
  {| domains := ds;
     interval := match opt_interval options with
                 | Some i => if (i =? 0)%Z then 30 * 60 * 1000 else i
                 | None => 30 * 60 * 1000
                 end%Z;
     verbose := match opt_verbose options with Some b => b | None => false end;
     once := match opt_once options with Some b => b | None => false end;
     token := opt_token options;
     isRunning := false;
     lastCheck := None;
     findings := [];
     intervalId := None |}.

(** A timer armed by [setInterval]; its callback is always
    [async () => { await this.check(); }]. *)
Record Timer := { timer_id : TimerId; timer_period : Z }.

(** The delay the runtime gives a timer: Node's [setInterval] replaces a
    delay below 1 or above [TIMEOUT_MAX] = 2^31 - 1 by 1 millisecond. *)
Definition TIMEOUT_MAX : Z := 2147483647.

Definition timer_delay (after : Z) : Z :=
  if ((1 <=? after) && (after <=? TIMEOUT_MAX))%Z then after else 1%Z.

(** The collaborators of the orchestrator: the platform behind the HTTP
    client, the clock, and the two detector functions of [./scanner], which
    may throw on content they cannot handle. *)
Class Platform := {
  W : Type;
  http_get : Request -> W -> Outcome Data * W;
  date_now : W -> Timestamp * W;
  scanForDomains : string -> list string -> Outcome (list string);
  detectCredentials : string -> Outcome (list string)
}.

Section Monitor.

Context {P : Platform}.

Record State := {
  this : Monitor;
  world : W;
  timers : list Timer;
  next_timer : TimerId;
  trace : list Event
}.

Definition with_this (f : Monitor -> Monitor) (s : State) : State :=
  {| this := f (this s); world := world s; timers := timers s;
     next_timer := next_timer s; trace := trace s |}.

Definition emit (e : Event) : M State unit :=
  modify (fun s =>
    {| this := this s; world := world s; timers := timers s;
       next_timer := next_timer s; trace := trace s ++ [e] |}).

Definition console_log (l : Line) : M State unit := emit (ELog l).
Definition console_error (l : Line) : M State unit := emit (EError l).

(** [new Date()] *)
Definition new_Date : M State Timestamp :=
  fun s =>
    let (t, w) := date_now (world s) in
    (Ret t, {| this := this s; world := w; timers := timers s;
               next_timer := next_timer s; trace := trace s |}).

(** [this.github.get(url, { params: { q, per_page } })] *)
Definition github_get (u : string) (q : JsString) (per_page : option Z)
  : M State Data :=
  fun s =>
    let r := {| req_url := u; req_q := q; req_per_page := per_page;
                req_token := token (this s) |} in
    let (o, w) := http_get r (world s) in
    (o, {| this := this s; world := w; timers := timers s;
           next_timer := next_timer s; trace := trace s ++ [EGet r] |}).

(** [setInterval(callback, period)]: arms a recurring timer, with the
    delay the runtime makes of [period], and returns its handle. *)
Definition setInterval (period : Z) : M State TimerId :=
  fun s =>
    let id := next_timer s in
    (Ret id, {| this := this s; world := world s;
                timers := timers s ++ [{| timer_id := id;
                                         timer_period := timer_delay period |}];
                next_timer := S id; trace := trace s |}).

(** [clearInterval(id)]: disarms the timer; no effect when it is not armed. *)
Definition clearInterval (id : TimerId) : M State unit :=
  modify (fun s =>
    {| this := this s; world := world s;
       timers := filter (fun t => negb (Nat.eqb (timer_id t) id)) (timers s);
       next_timer := next_timer s; trace := trace s |}).

(** *** scanCodeSearch *)

(** [response.data.items || []] *)
Definition data_items (d : Data) : Outcome (list SearchItem) :=
  match d with
  | DNull => Throw "Cannot read properties of null (reading 'items')"
  | DSearch (Some items) => Ret items
  | DSearch None => Ret []
  | DGists _ => Ret []
  | DFile _ => Ret []
  end.

(** The object literal pushed for one search hit. *)
Definition code_result (item : SearchItem) : Outcome Item :=
  match si_repository item with
  | None => Throw "Cannot read properties of undefined (reading 'full_name')"
  | Some r =>
      Ret (CodeResult (full_name r) (si_path item) (si_html_url item)
                      (si_url item))
  end.

(** One query and the loop that pushes its hits onto [results]; the source
    writes this block twice, once per search term. *)
Definition search_code (query : string) : M (list Item * State) unit :=
  response <- lift (github_get "/search/code" (Some query) (Some 30%Z));;
  items <- of_outcome (data_items response);;
  for_of items (fun item =>
    r <- of_outcome (code_result item);;
    set_local (fun results => results ++ [r])).

(** The body of the loop over the watched domains: both queries inside one
    [try], whose handler logs when verbose. *)
Definition search_domain (domain : string) : M (list Item * State) unit :=
  try_catch
    (search_code (domain ++ " password")%string;;
     search_code (domain ++ " api_key")%string)
    (fun error =>
       v <- lift (gets (fun s => verbose (this s)));;
       when v (lift (console_error (LSearchError domain error)))).

Definition scanCodeSearch : M State (list Item) :=
  with_locals []
    (ds <- lift (gets (fun s => domains (this s)));;
     for_of ds search_domain;;
     local).

(** *** scanGists *)

(** [for (const gist of response.data)] needs an iterable. *)
Definition data_gists (d : Data) : Outcome (list Gist) :=
  match d with
  | DGists gs => Ret gs
  | DNull => Throw "response.data is not iterable"
  | DSearch _ => Throw "response.data is not iterable"
  | DFile _ => Throw "response.data is not iterable"
  end.

(** [Object.entries(gist.files)] *)
Definition gist_entries (g : Gist) : Outcome (list (string * FileData)) :=
  match g_files g with
  | Some fs => Ret fs
  | None => Throw "Cannot convert undefined or null to object"
  end.

Definition gist_result (g : Gist) (entry : string * FileData) : Item :=
  GistResult (g_id g) (fst entry) (g_html_url g) (fd_content (snd entry)).

Definition scanGists : M State (list Item) :=
  with_locals []
    (try_catch
       (response <- lift (github_get "/gists/public" None (Some 30%Z));;
        gists <- of_outcome (data_gists response);;
        for_of gists (fun g =>
          entries <- of_outcome (gist_entries g);;
          for_of entries (fun entry =>
            set_local (fun results => results ++ [gist_result g entry]))))
       (fun error =>
          v <- lift (gets (fun s => verbose (this s)));;
          when v (lift (console_error (LGistsError error))));;
     local).

(** *** analyzeContent *)

(** [response.data.content] *)
Definition data_content (d : Data) : Outcome JsString :=
  match d with
  | DNull => Throw "Cannot read properties of null (reading 'content')"
  | DFile c => Ret c
  | DSearch _ => Ret None
  | DGists _ => Ret None
  end.

(** The first block of the [try]: the item's text, fetched for a code
    result that has a content locator, inline for a gist file. *)
Definition resolveContent (item : Item) : M State string :=
  if match item_type item with code => truthy (item_contentUrl item)
                             | gist => false end
  then
    response <- github_get (or_empty (item_contentUrl item)) None None;;
    c <- of_outcome (data_content response);;
    ret (or_empty c)
  else
    match item_type item with
    | gist => ret (or_empty (item_content item))
    | code => ret ""
    end.

(** [item.url && this.domains.some(d => item.url.includes(d))] *)
Definition url_mentions (item : Item) (ds : list string) : bool :=
  truthy (item_url item) &&
  existsb (fun d => includes (or_empty (item_url item)) d) ds.

(** The object literal [analyzeContent] pushes. *)
Definition new_finding (ts : Timestamp) (item : Item) (content : string)
    (domainMatches creds : list string) : Finding :=
  {| timestamp := ts;
     type := item_type item;
     source := js_or (item_repository item) (item_id item);
     path := js_or (item_path item) (item_filename item);
     url := item_url item;
     matchedDomains := domainMatches;
     credentials := creds;
     snippet := String.substring 0 200 content |}.

Definition analyzeContent (item : Item) : M State (list Finding) :=
  with_locals []
    (try_catch
       (content <- lift (resolveContent item);;
        ds <- lift (gets (fun s => domains (this s)));;
        domainMatches <- of_outcome (scanForDomains content ds);;
        if Nat.ltb 0 (List.length domainMatches) || url_mentions item ds then
          creds <- of_outcome (detectCredentials content);;
          if Nat.ltb 0 (List.length creds) then
            ts <- lift new_Date;;
            set_local (fun findings =>
              findings ++ [new_finding ts item content domainMatches creds])
          else ret tt
        else ret tt)
       (fun _ => ret tt);;
     local).

(** *** alert and printSummary *)

Definition alert (fs : list Finding) : M State unit :=
  for_of fs (fun f => console_log (LAlert f)).

Definition printSummary : M State unit :=
  fs <- gets (fun s => findings (this s));;
  console_log (LSummary (List.length fs));;
  when (Nat.ltb 0 (List.length fs))
    (console_log LDetails;;
     for_of fs (fun f => console_log (LDetail f))).

(** *** check *)

(** [this.findings.push(...fs)] *)
Definition push_findings (fs : list Finding) : M State unit :=
  modify (with_this (fun m =>
    {| domains := domains m; interval := interval m; verbose := verbose m;
       once := once m; token := token m; isRunning := isRunning m;
       lastCheck := lastCheck m; findings := findings m ++ fs;
       intervalId := intervalId m |})).

Definition set_lastCheck (ts : Timestamp) : M State unit :=
  modify (with_this (fun m =>
    {| domains := domains m; interval := interval m; verbose := verbose m;
       once := once m; token := token m; isRunning := isRunning m;
       lastCheck := Some ts; findings := findings m;
       intervalId := intervalId m |})).

(** The loop both halves of [check] run over a connector's items; the
    locals are [(totalScanned, threatsFound)]. *)
Definition analyze_each (items : list Item) : M (nat * nat * State) unit :=
  for_of items (fun result =>
    fs <- lift (analyzeContent result);;
    when (Nat.ltb 0 (List.length fs))
      (set_local (fun c => (fst c, snd c + List.length fs));;
       lift (push_findings fs);;
       lift (alert fs))).

(** One [try] block of [check]: announce the source when verbose, run its
    connector, count and analyse the items; the handler logs the error.
    The source writes this block twice, once per connector. *)
Definition scan_source (announce : Line) (connector : M State (list Item))
    (failed : Error -> Line) : M (nat * nat * State) unit :=
  try_catch
    (v <- lift (gets (fun s => verbose (this s)));;
     when v (lift (console_log announce));;
     results <- lift connector;;
     set_local (fun c => (fst c + List.length results, snd c));;
     analyze_each results)
    (fun error => lift (console_error (failed error))).

(** [check], with the two connector methods it looks up on [this] as
    arguments, so that a connector can be replaced by one that throws. *)
Definition check_with (codeSearch gists : M State (list Item))
  : M State unit :=
  with_locals (0, 0)
    (ts <- lift new_Date;;
     lift (set_lastCheck ts);;
     lift (console_log (LScanning ts));;
     scan_source LSearchingCode codeSearch LErrorCode;;
     scan_source LScanningGists gists LErrorGists;;
     c <- local;;
     lift (console_log (LScanned (fst c) (snd c)))).

Definition check : M State unit := check_with scanCodeSearch scanGists.

(** *** start and stop *)

Definition set_isRunning (b : bool) : M State unit :=
  modify (with_this (fun m =>
    {| domains := domains m; interval := interval m; verbose := verbose m;
       once := once m; token := token m; isRunning := b;
       lastCheck := lastCheck m; findings := findings m;
       intervalId := intervalId m |})).

Definition set_intervalId (id : TimerId) : M State unit :=
  modify (with_this (fun m =>
    {| domains := domains m; interval := interval m; verbose := verbose m;
       once := once m; token := token m; isRunning := isRunning m;
       lastCheck := lastCheck m; findings := findings m;
       intervalId := Some id |})).

Definition start : M State unit :=
  set_isRunning true;;
  console_log LStarting;;
  check;;
  o <- gets (fun s => once (this s));;
  if o then
    console_log LSingleScan;;
    printSummary
  else
    i <- gets (fun s => interval (this s));;
    console_log (LMonitoring i);;
    console_log LPressCtrlC;;
    id <- setInterval i;;
    set_intervalId id.

Definition stop : M State unit :=
  set_isRunning false;;
  id <- gets (fun s => intervalId (this s));;
  match id with
  | Some i => clearInterval i
  | None => ret tt
  end.

(** The runtime's timer dispatch: when timer [id] is armed and comes due,
    its callback runs one [check]; a disarmed timer never fires. *)
Definition armed (id : TimerId) (s : State) : bool :=
  existsb (fun t => Nat.eqb (timer_id t) id) (timers s).

Definition timer_due (id : TimerId) : M State unit :=
  fun s => if armed id s then check s else (Ret tt, s).

End Monitor.

(** The state of a process that has just constructed its monitor. *)
Definition fresh {P : Platform} (m : Monitor) (w : W) : State :=
  {| this := m; world := w; timers := []; next_timer := 0; trace := [] |}.

(** ** A scripted platform for concrete runs *)

(** Modelled from the spec: [scanForDomains] of [./scanner], which is not
    part of the sources at hand, as section 4.4 words it: the watched
    domains that occur as a substring of the content. *)
Definition substring_scanForDomains (content : string) (ds : list string)
  : Outcome (list string) :=
  Ret (filter (includes content) ds).

Definition signatures : list (string * string) :=
  [("password=", "password"); ("api_key=", "api_key"); ("token=", "token")].

(** Modelled from the spec: [detectCredentials] of [./scanner], as section
    4.4 words it: the labels of the credential signatures that occur
    somewhere in the content. *)
Definition signature_detectCredentials (content : string)
  : Outcome (list string) :=
  Ret (map snd (filter (fun sg => includes content (fst sg)) signatures)).

(** A platform whose answer depends on the request only and whose clock
    advances by one millisecond per reading. *)
Definition scripted (net : Request -> Outcome Data) : Platform :=
  {| W := Z;
     http_get := fun r w => (net r, w);
     date_now := fun w => (w, (w + 1)%Z);
     scanForDomains := substring_scanForDomains;
     detectCredentials := signature_detectCredentials |}.


Definition one_hit (r : Request) : list SearchItem :=
  [{| si_repository := Some {| full_name := Some "foo/bar" |};
      si_path := Some "config/prod.env";
      si_html_url := Some "https://github.com/foo/bar/blob/main/config/prod.env";
      si_url := Some "https://api.github.com/repos/foo/bar/contents/config/prod.env" |}].


Definition two_gists : list Gist :=
  [{| g_id := Some "aa11"; g_html_url := Some "https://gist.github.com/aa11";
      g_files := Some [("a.txt", {| fd_content := Some "password=1" |});
                       ("b.txt", {| fd_content := None |})] |};
   {| g_id := Some "bb22"; g_html_url := Some "https://gist.github.com/bb22";
      g_files := Some [("c.txt", {| fd_content := Some "acme.com" |})] |}].

(** A gist endpoint that lists two gists with three files in all. *)
Definition listing : Request -> Outcome Data :=
  fun _ => Ret (DGists two_gists).

Definition offline : Request -> Outcome Data :=
  fun _ => Throw "Network Error".

Definition acme : Monitor :=
  constructor ["acme.com"]
    {| opt_interval := None; opt_verbose := None; opt_once := None;
       opt_token := None |}.

Definition acme_once : Monitor :=
  constructor ["acme.com"]
    {| opt_interval := None; opt_verbose := None; opt_once := Some true;
       opt_token := None |}.

(** The item of the URL scenario of section 8: the watched domain is in the
    display URL only, the body holds a password assignment. *)
Definition url_only_gist : Item :=
  GistResult (Some "g1") "notes.txt"
    (Some "https://github.com/foo/acme.com-configs")
    (Some "password=hunter2").

Definition leaking_gist : Item :=
  GistResult (Some "g2") "env" (Some "https://gist.github.com/g2")
    (Some "acme.com password123 api_key=sk_live_xxx").

Definition unreachable_code : Item :=
  CodeResult (Some "foo/bar") (Some "config/prod.env")
    (Some "https://github.com/foo/bar/blob/main/config/prod.env")
    (Some "https://api.github.com/repos/foo/bar/contents/config/prod.env").

Definition two_domains : Monitor :=
  constructor ["acme.com"; "example.org"]
    {| opt_interval := None; opt_verbose := None; opt_once := None;
       opt_token := None |}.

(** Freshly constructed monitors on the scripted platforms. *)
Definition idle_acme : @State (scripted offline) :=
  fresh (P := scripted offline) acme 0%Z.



Definition listed : @State (scripted listing) :=
  fresh (P := scripted listing) acme 0%Z.

Definition harmless_gist : Item :=
  GistResult (Some "g3") "readme" (Some "https://gist.github.com/g3")
    (Some "visit acme.com for info").

(** ** Vocabulary of the properties *)

(** A method that never throws. *)
Definition returns {S A} (m : M S A) : Prop :=
  forall s, exists a, fst (m s) = Ret a.

(** A method that keeps relation [R] between the state before and after. *)
Definition preserves {S A} (R : S -> S -> Prop) (m : M S A) : Prop :=
  forall s, R s (snd (m s)).

(** [R] on the object's state, for a body that also has locals. *)
Definition on_global {L S} (R : S -> S -> Prop) : L * S -> L * S -> Prop :=
  fun a b => R (snd a) (snd b).

(** A projection of the state that is the same before and after. *)
Definition unchanged {S A} (f : S -> A) : S -> S -> Prop :=
  fun s s' => f s' = f s.

(** Ticks started, requests sent and tick summaries printed, read off a
    trace. *)
Definition ticks (tr : list Event) : nat :=
  List.length
    (filter (fun e => match e with ELog (LScanning _) => true | _ => false end)
       tr).

Fixpoint requests (tr : list Event) : list Request :=
  match tr with
  | [] => []
  | EGet r :: rest => r :: requests rest
  | _ :: rest => requests rest
  end.

(** What a connector or the pipeline must leave alone: the object, the
    timers and the number of ticks started. *)
Definition object_view {P : Platform} (s : State) :=
  (this s, timers s, next_timer s, ticks (trace s)).

(** What a tick leaves alone: the configuration, the running flag and the
    timers. *)
Definition settings_view {P : Platform} (s : State) :=
  (domains (this s), interval (this s), verbose (this s), once (this s),
   token (this s), isRunning (this s), intervalId (this s),
   timers s, next_timer s).

(** What the part of a tick after its first line leaves alone. *)
Definition schedule_view {P : Platform} (s : State) :=
  (settings_view s, ticks (trace s)).

(** The lines of [printSummary] for the accumulated findings [fs]. *)
Definition summary_lines (fs : list Finding) : list Event :=
  ELog (LSummary (List.length fs)) ::
  (if Nat.ltb 0 (List.length fs)
   then ELog LDetails :: map (fun f => ELog (LDetail f)) fs
   else []).

(** The state after the timer [id] came due [n] times. *)
Definition due_times {P : Platform} (n : nat) (id : TimerId) (s : State)
  : State :=
  Nat.iter n (fun st => snd (timer_due id st)) s.

(** The display URL is present, not empty, and has the domain as a
    substring. *)
Definition display_url_contains (item : Item) (ds : list string) : Prop :=
  exists u d before after,
    item_url item = Some u /\ u <> "" /\ In d ds /\
    u = (before ++ d ++ after)%string.

(** The decision rule of section 4.4, on the detector results [ms] and
    [cs]. *)
Definition decision_rule (item : Item) (ds ms cs : list string) : Prop :=
  (ms <> [] \/ display_url_contains item ds) /\ cs <> [].

(** An error is raised for the item: while its content is resolved, by
    [scanForDomains], or by [detectCredentials] once the domain condition
    let the pipeline reach it.  [s1] is the state the error leaves. *)
Inductive raises {P : Platform} (item : Item) (s s1 : State) : Prop :=
| raises_resolving e :
    resolveContent item s = (Throw e, s1) -> raises item s s1
| raises_scanning content e :
    resolveContent item s = (Ret content, s1) ->
    scanForDomains content (domains (this s)) = Throw e ->
    raises item s s1
| raises_detecting content ms e :
    resolveContent item s = (Ret content, s1) ->
    scanForDomains content (domains (this s)) = Ret ms ->
    ms <> [] \/ display_url_contains item (domains (this s)) ->
    detectCredentials content = Throw e ->
    raises item s s1.

(** A connector, real or substituted, that throws [e] in every state, and
    one that returns [items] in every state; neither touches the object. *)
Definition fails_with {P : Platform} (e : Error)
    (connector : M State (list Item)) : Prop :=
  forall s, exists s', connector s = (Throw e, s') /\ this s' = this s.

Definition yields {P : Platform} (items : list Item)
    (connector : M State (list Item)) : Prop :=
  forall s, exists s', connector s = (Ret items, s') /\ this s' = this s.

(** A connector that contributes nothing to a tick. *)
Definition idle {P : Platform} (connector : M State (list Item)) : Prop :=
  (exists e, fails_with e connector) \/ yields [] connector.

(** The item satisfies the decision rule whenever it is analysed for the
    watched domains [ds]: its content resolves, both detectors return, and
    their results pass the rule. *)
Definition satisfies_rule {P : Platform} (ds : list string) (item : Item)
  : Prop :=
  forall s, domains (this s) = ds ->
    exists content s1 ms cs,
      resolveContent item s = (Ret content, s1) /\
      scanForDomains content ds = Ret ms /\
      detectCredentials content = Ret cs /\
      decision_rule item ds ms cs.

(** The Finding was built from the item and the detector results on some
    content of it. *)
Definition derived_from {P : Platform} (ds : list string) (item : Item)
    (f : Finding) : Prop :=
  exists ts content ms cs,
    f = new_finding ts item content ms cs /\
    scanForDomains content ds = Ret ms /\
    detectCredentials content = Ret cs.

(** The state after [check] has pushed and alerted the findings [fs]. *)
Definition reported {P : Platform} (fs : list Finding) (s : State) : State :=
  snd ((push_findings fs;; alert fs) s).

(** The same state with another list of watched domains. *)
Definition watching {P : Platform} (ds : list string) (s : State) : State :=
  with_this (fun m =>
    {| domains := ds; interval := interval m; verbose := verbose m;
       once := once m; token := token m; isRunning := isRunning m;
       lastCheck := lastCheck m; findings := findings m;
       intervalId := intervalId m |}) s.


Definition well_formed_gist (g : Gist) : Prop := g_files g <> None.

(** The CodeResult of a hit; its [contentUrl] is the hit's [url]. *)
Definition code_item (item : SearchItem) : Item :=
  CodeResult
    (match si_repository item with Some r => full_name r | None => None end)
    (si_path item) (si_html_url item) (si_url item).

Definition gist_files (g : Gist) : list (string * FileData) :=
  match g_files g with
  | Some fs => fs
  | None => []
  end.

(** The GistResults of a gist, one per file. *)
Definition expand (g : Gist) : list Item :=
  map (fun entry =>
         GistResult (g_id g) (fst entry) (g_html_url g)
           (fd_content (snd entry)))
    (gist_files g).

(** The two push loops as folds over [results]: a malformed element throws
    and leaves what was pushed before it. *)
Fixpoint push_hits (items : list SearchItem) (results : list Item)
  : Outcome unit * list Item :=
  match items with
  | [] => (Ret tt, results)
  | item :: rest =>
      match code_result item with
      | Throw e => (Throw e, results)
      | Ret r => push_hits rest (results ++ [r])
      end
  end.

Fixpoint expand_all (gs : list Gist) (results : list Item)
  : Outcome unit * list Item :=
  match gs with
  | [] => (Ret tt, results)
  | g :: rest =>
      match gist_entries g with
      | Throw e => (Throw e, results)
      | Ret entries => expand_all rest (results ++ map (gist_result g) entries)
      end
  end.

(** A run of the loop over the domains, one step per domain: [step d r r' g]
    relates the results before and after domain [d] and the requests [g]
    sent for it. *)
Inductive per_domain
    (step : string -> list Item -> list Item -> list Request -> Prop)
  : list string -> list Item -> list Item -> list Request -> Prop :=
| per_domain_nil r : per_domain step [] r r []
| per_domain_cons d ds r r1 r2 g gs :
    step d r r1 g -> per_domain step ds r1 r2 gs ->
    per_domain step (d :: ds) r r2 (g ++ gs).

(** The requests of the two connectors. *)
Definition search_request (tok : JsString) (q : string) : Request :=
  {| req_url := "/search/code"; req_q := Some q; req_per_page := Some 30%Z;
     req_token := tok |}.

Definition gists_request (tok : JsString) : Request :=
  {| req_url := "/gists/public"; req_q := None; req_per_page := Some 30%Z;
     req_token := tok |}.

Definition password_query (tok : JsString) (d : string) : Request :=
  search_request tok (d ++ " password")%string.

Definition api_key_query (tok : JsString) (d : string) : Request :=
  search_request tok (d ++ " api_key")%string.

(** ** Vocabulary of the further properties *)

(** The findings alerted and the findings listed by the summary, read off a
    trace. *)
Fixpoint alerts (tr : list Event) : list Finding :=
  match tr with
  | [] => []
  | ELog (LAlert f) :: rest => f :: alerts rest
  | _ :: rest => alerts rest
  end.

Fixpoint details (tr : list Event) : list Finding :=
  match tr with
  | [] => []
  | ELog (LDetail f) :: rest => f :: details rest
  | _ :: rest => details rest
  end.

(** What was printed: the trace without the requests. *)
Definition console (tr : list Event) : list Event :=
  filter (fun e => match e with EGet _ => false | _ => true end) tr.

(** The verbosity flag is as before, and when it is off nothing was
    printed. *)
Definition silent {P : Platform} (s s' : State) : Prop :=
  verbose (this s') = verbose (this s) /\
  (verbose (this s) = false -> console (trace s') = console (trace s)).

(** The object with [fs] pushed onto its findings, with [lastCheck] set,
    and with [isRunning] cleared. *)
Definition appended (fs : list Finding) (m : Monitor) : Monitor :=
  {| domains := domains m; interval := interval m; verbose := verbose m;
     once := once m; token := token m; isRunning := isRunning m;
     lastCheck := lastCheck m; findings := findings m ++ fs;
     intervalId := intervalId m |}.

Definition stamped (ts : Timestamp) (m : Monitor) : Monitor :=
  {| domains := domains m; interval := interval m; verbose := verbose m;
     once := once m; token := token m; isRunning := isRunning m;
     lastCheck := Some ts; findings := findings m;
     intervalId := intervalId m |}.

Definition halted (m : Monitor) : Monitor :=
  {| domains := domains m; interval := interval m; verbose := verbose m;
     once := once m; token := token m; isRunning := false;
     lastCheck := lastCheck m; findings := findings m;
     intervalId := intervalId m |}.

(** What a connector and the pipeline leave alone besides the schedule:
    the object and the alerts printed so far. *)
Definition ledger_view {P : Platform} (s : State) :=
  (this s, alerts (trace s)).

(** The request [analyzeContent] sends for an item: one plain GET of the
    content locator of a code result that has one, none otherwise. *)
Definition content_request (tok : JsString) (item : Item) : list Request :=
  match item with
  | CodeResult _ _ _ (Some u) =>
      if String.eqb u "" then []
      else [{| req_url := u; req_q := None; req_per_page := None;
               req_token := tok |}]
  | CodeResult _ _ _ None => []
  | GistResult _ _ _ _ => []
  end.

(** The three kinds of request a tick sends, all with the client's token:
    a code search with a query and a page size of 30, the public gist
    listing with a page size of 30, and a plain GET of a locator. *)
Definition tick_request (tok : JsString) (r : Request) : Prop :=
  req_token r = tok /\
  ((req_url r = "/search/code" /\ req_q r <> None /\
    req_per_page r = Some 30%Z) \/
   r = gists_request tok \/
   (req_q r = None /\ req_per_page r = None)).

(** The trace grew by events whose requests are all tick requests, and the
    token is as before. *)
Definition sends_only {P : Platform} (s s' : State) : Prop :=
  token (this s') = token (this s) /\
  exists tr,
    trace s' = trace s ++ tr /\
    Forall (tick_request (token (this s))) (requests tr).

(** The code-search connector on a platform that answers request [r] with
    [net r], as a fold: one query pushes its hits onto [results] and may
    throw; a domain runs its second query only if the first returned. *)
Definition query_results (net : Request -> Outcome Data) (r : Request)
    (results : list Item) : Outcome unit * list Item :=
  match net r with
  | Throw e => (Throw e, results)
  | Ret d =>
      match data_items d with
      | Throw e => (Throw e, results)
      | Ret items => push_hits items results
      end
  end.

Definition domain_results (net : Request -> Outcome Data) (tok : JsString)
    (d : string) (results : list Item) : list Item :=
  match query_results net (password_query tok d) results with
  | (Throw _, r1) => r1
  | (Ret _, r1) => snd (query_results net (api_key_query tok d) r1)
  end.







(** The gists up to the first one without [files]. *)
Fixpoint good_prefix (gs : list Gist) : list Gist :=
  match gs with
  | [] => []
  | g :: rest =>
      match g_files g with
      | Some _ => g :: good_prefix rest
      | None => []
      end
  end.

(** A search endpoint that answers the password queries with one hit and
    refuses the api_key queries. *)
Definition half_answering : Request -> Outcome Data :=
  fun r =>
    match req_q r with
    | Some q =>
        if includes q "api_key" then Throw "Request failed with status code 403"
        else Ret (DSearch (Some (one_hit r)))
    | None => Ret DNull
    end.

(** A gist listing whose second gist has no [files]. *)
Definition broken_listing : Request -> Outcome Data :=
  fun _ =>
    Ret (DGists
      [{| g_id := Some "aa11"; g_html_url := Some "https://gist.github.com/aa11";
          g_files := Some [("a.txt", {| fd_content := Some "password=1" |})] |};
       {| g_id := Some "bb22"; g_html_url := None; g_files := None |};
       {| g_id := Some "cc33"; g_html_url := Some "https://gist.github.com/cc33";
          g_files := Some [("c.txt", {| fd_content := Some "token=2" |})] |}]).

Definition half_answered : @State (scripted half_answering) :=
  fresh (P := scripted half_answering) two_domains 0%Z.

Definition broken_listed : @State (scripted broken_listing) :=
  fresh (P := scripted broken_listing) acme 0%Z.

Definition single_run_acme : @State (scripted offline) :=
  fresh (P := scripted offline) acme_once 0%Z.

(** ** Running the combinators *)

Section Run.

Context {S : Type}.

Lemma bind_Ret {A B} (m : M S A) (k : A -> M S B) s a s' :
  m s = (Ret a, s') -> bind m k s = k a s'.
Proof. intros H. unfold bind. now rewrite H. Qed.

Lemma bind_Throw {A B} (m : M S A) (k : A -> M S B) s e s' :
  m s = (Throw e, s') -> bind m k s = (Throw e, s').
Proof. intros H. unfold bind. now rewrite H. Qed.

Lemma try_catch_Ret {A} (body : M S A) handler s a s' :
  body s = (Ret a, s') -> try_catch body handler s = (Ret a, s').
Proof. intros H. unfold try_catch. now rewrite H. Qed.

Lemma try_catch_Throw {A} (body : M S A) handler s e s' :
  body s = (Throw e, s') -> try_catch body handler s = handler e s'.
Proof. intros H. unfold try_catch. now rewrite H. Qed.

Lemma lift_run {L A} (m : M S A) (l : L) s :
  lift m (l, s) = (fst (m s), (l, snd (m s))).
Proof. unfold lift. simpl. now destruct (m s). Qed.

Lemma with_locals_run {L A} (init : L) (body : M (L * S) A) s :
  with_locals init body s = (fst (body (init, s)), snd (snd (body (init, s)))).
Proof. unfold with_locals. now destruct (body (init, s)). Qed.

Lemma for_of_app {A} (xs ys : list A) (body : A -> M S unit) s :
  for_of (xs ++ ys) body s =
  match for_of xs body s with
  | (Ret _, s') => for_of ys body s'
  | (Throw e, s') => (Throw e, s')
  end.
Proof.
  revert s. induction xs as [|x xs IH]; intros s; simpl.
  - reflexivity.
  - unfold bind. destruct (body x s) as [[[]|e] s1]; [apply IH | reflexivity].
Qed.

(** *** Methods that never throw *)

Lemma returns_ret {A} (a : A) : returns (ret (S:=S) a).
Proof. intros s. now exists a. Qed.

Lemma returns_gets {A} (f : S -> A) : returns (gets f).
Proof. intros s. now exists (f s). Qed.

Lemma returns_modify (f : S -> S) : returns (modify f).
Proof. intros s. now exists tt. Qed.

Lemma returns_bind {A B} (m : M S A) (k : A -> M S B) :
  returns m -> (forall a, returns (k a)) -> returns (bind m k).
Proof.
  intros Hm Hk s. unfold bind. destruct (Hm s) as [a Ha].
  destruct (m s) as [o s1]. simpl in Ha. subst o. apply Hk.
Qed.

Lemma returns_when (c : bool) (m : M S unit) :
  returns m -> returns (when c m).
Proof. intros Hm. destruct c; [exact Hm | apply returns_ret]. Qed.

Lemma returns_for_of {A} (xs : list A) (body : A -> M S unit) :
  (forall x, returns (body x)) -> returns (for_of xs body).
Proof.
  intros Hb. induction xs as [|x xs IH]; simpl.
  - apply returns_ret.
  - apply returns_bind; [apply Hb | intros _; exact IH].
Qed.

(** A [try] whose handler never throws never throws, whatever its body
    does. *)
Lemma returns_try_catch {A} (body : M S A) handler :
  (forall e, returns (handler e)) -> returns (try_catch body handler).
Proof.
  intros Hh s. unfold try_catch. destruct (body s) as [[a|e] s1].
  - now exists a.
  - apply Hh.
Qed.

Lemma returns_lift {L A} (m : M S A) : returns m -> returns (lift (L:=L) m).
Proof.
  intros Hm [l s]. rewrite lift_run. simpl. apply Hm.
Qed.

Lemma returns_with_locals {L A} (init : L) (body : M (L * S) A) :
  returns body -> returns (with_locals init body).
Proof.
  intros Hb s. rewrite with_locals_run. simpl. apply Hb.
Qed.

(** *** Methods that keep a preorder on the state *)

Section Preserved.

Context (R : S -> S -> Prop) {HR : PreOrder R}.

Lemma preserves_ret {A} (a : A) : preserves R (ret a).
Proof. intros s. simpl. reflexivity. Qed.

Lemma preserves_throw {A} e : preserves R (throw (A:=A) e).
Proof. intros s. simpl. reflexivity. Qed.

Lemma preserves_gets {A} (f : S -> A) : preserves R (gets f).
Proof. intros s. simpl. reflexivity. Qed.

Lemma preserves_of_outcome {A} (o : Outcome A) : preserves R (of_outcome o).
Proof. intros s. simpl. reflexivity. Qed.

Lemma preserves_bind {A B} (m : M S A) (k : A -> M S B) :
  preserves R m -> (forall a, preserves R (k a)) -> preserves R (bind m k).
Proof.
  intros Hm Hk s. unfold bind. specialize (Hm s).
  destruct (m s) as [[a|e] s1]; simpl in *.
  - transitivity s1; [exact Hm | apply Hk].
  - exact Hm.
Qed.

Lemma preserves_try_catch {A} (body : M S A) handler :
  preserves R body -> (forall e, preserves R (handler e)) ->
  preserves R (try_catch body handler).
Proof.
  intros Hb Hh s. unfold try_catch. specialize (Hb s).
  destruct (body s) as [[a|e] s1]; simpl in *.
  - exact Hb.
  - transitivity s1; [exact Hb | apply Hh].
Qed.

Lemma preserves_when (c : bool) (m : M S unit) :
  preserves R m -> preserves R (when c m).
Proof. intros Hm. destruct c; [exact Hm | apply preserves_ret]. Qed.

Lemma preserves_for_of {A} (xs : list A) (body : A -> M S unit) :
  (forall x, preserves R (body x)) -> preserves R (for_of xs body).
Proof.
  intros Hb. induction xs as [|x xs IH]; simpl.
  - apply preserves_ret.
  - apply preserves_bind; [apply Hb | intros _; exact IH].
Qed.

#[export] Instance on_global_preorder {L} : PreOrder (on_global (L:=L) R).
Proof.
  split.
  - intros a. unfold on_global. reflexivity.
  - intros a b c Hab Hbc. unfold on_global in *. now transitivity (snd b).
Qed.

Lemma preserves_lift {L A} (m : M S A) :
  preserves R m -> preserves (on_global (L:=L) R) (lift m).
Proof.
  intros Hm [l s]. rewrite lift_run. unfold on_global. simpl. apply Hm.
Qed.

Lemma preserves_local {L} : preserves (on_global R) (local (L:=L)).
Proof. intros s. unfold on_global. simpl. reflexivity. Qed.

Lemma preserves_set_local {L} (f : L -> L) :
  preserves (on_global R) (set_local f).
Proof. intros s. unfold on_global. simpl. reflexivity. Qed.

Lemma preserves_with_locals {L A} (init : L) (body : M (L * S) A) :
  preserves (on_global R) body -> preserves R (with_locals init body).
Proof.
  intros Hb s. rewrite with_locals_run. simpl. apply (Hb (init, s)).
Qed.

End Preserved.

End Run.

#[export] Instance unchanged_preorder {S A} (f : S -> A) : PreOrder (unchanged f).
Proof.
  split.
  - intros s. reflexivity.
  - intros a b c Hab Hbc. unfold unchanged in *. congruence.
Qed.

Lemma ticks_app (tr1 tr2 : list Event) : ticks (tr1 ++ tr2) = ticks tr1 + ticks tr2.
Proof. unfold ticks. now rewrite filter_app, length_app. Qed.

Lemma requests_app (tr1 tr2 : list Event) :
  requests (tr1 ++ tr2) = requests tr1 ++ requests tr2.
Proof.
  induction tr1 as [|[r|l|l] tr1 IH]; simpl; rewrite ?IH; reflexivity.
Qed.

(** Structural decomposition of a preservation goal. *)
Ltac frame :=
  lazymatch goal with
  | |- preserves _ (bind _ _) =>
      apply preserves_bind; [typeclasses eauto | frame | intros ?; frame]
  | |- preserves _ (try_catch _ _) =>
      apply preserves_try_catch; [typeclasses eauto | frame | intros ?; frame]
  | |- preserves _ (for_of _ _) =>
      apply preserves_for_of; [typeclasses eauto | intros ?; frame]
  | |- preserves _ (when _ _) =>
      apply preserves_when; [typeclasses eauto | frame]
  | |- preserves _ (ret _) => apply preserves_ret; typeclasses eauto
  | |- preserves _ (gets _) => apply preserves_gets; typeclasses eauto
  | |- preserves _ (of_outcome _) =>
      apply preserves_of_outcome; typeclasses eauto
  | |- preserves _ local => apply preserves_local; typeclasses eauto
  | |- preserves _ (set_local _) =>
      apply preserves_set_local; typeclasses eauto
  | |- preserves _ (lift _) => apply preserves_lift; frame
  | |- preserves _ (with_locals _ _) => apply preserves_with_locals; frame
  | |- preserves _ (if ?c then _ else _) => destruct c; frame
  | |- preserves _ (match ?x with _ => _ end) => destruct x; frame
  | |- _ => auto with frame
  end.

Create HintDb frame.

Section Facts.

Context {P : Platform}.

(** ** What each method leaves alone *)

Lemma github_get_quiet u q n : preserves (unchanged object_view) (github_get u q n).
Proof.
  intros s. unfold unchanged, object_view, github_get.
  destruct (http_get _ (world s)) as [o w]. simpl.
  rewrite ticks_app. simpl. now rewrite Nat.add_0_r.
Qed.

Lemma new_Date_quiet : preserves (unchanged object_view) new_Date.
Proof.
  intros s. unfold unchanged, object_view, new_Date.
  now destruct (date_now (world s)).
Qed.

Lemma console_error_quiet l : preserves (unchanged object_view) (console_error l).
Proof.
  intros s. unfold unchanged, object_view. simpl.
  rewrite ticks_app. simpl. now rewrite Nat.add_0_r.
Qed.

Hint Resolve github_get_quiet new_Date_quiet console_error_quiet : frame.

Lemma resolveContent_quiet item : preserves (unchanged object_view) (resolveContent item).
Proof. unfold resolveContent. frame. Qed.

Hint Resolve resolveContent_quiet : frame.

Lemma analyzeContent_quiet item : preserves (unchanged object_view) (analyzeContent item).
Proof. unfold analyzeContent. frame. Qed.

Lemma scanCodeSearch_quiet : preserves (unchanged object_view) scanCodeSearch.
Proof. unfold scanCodeSearch, search_domain, search_code. frame. Qed.

Lemma scanGists_quiet : preserves (unchanged object_view) scanGists.
Proof. unfold scanGists. frame. Qed.

Lemma resolveContent_this item s : this (snd (resolveContent item s)) = this s.
Proof.
  pose proof (resolveContent_quiet item s) as H.
  unfold unchanged, object_view in H. congruence.
Qed.

(** ** The analysis pipeline, case by case *)

Lemma analyzeContent_unfold item s :
  analyzeContent item s =
  match resolveContent item s with
  | (Throw _, s1) => (Ret [], s1)
  | (Ret content, s1) =>
      match scanForDomains content (domains (this s)) with
      | Throw _ => (Ret [], s1)
      | Ret ms =>
          if Nat.ltb 0 (List.length ms) || url_mentions item (domains (this s))
          then
            match detectCredentials content with
            | Throw _ => (Ret [], s1)
            | Ret cs =>
                if Nat.ltb 0 (List.length cs) then
                  match new_Date s1 with
                  | (Ret ts, s2) =>
                      (Ret [new_finding ts item content ms cs], s2)
                  | (Throw _, s2) => (Ret [], s2)
                  end
                else (Ret [], s1)
            end
          else (Ret [], s1)
      end
  end.
Proof.
  pose proof (resolveContent_this item s) as Hthis.
  unfold analyzeContent, with_locals, try_catch, bind, lift, of_outcome,
    local, set_local, gets, modify, ret.
  simpl.
  destruct (resolveContent item s) as [[content|e] s1]; simpl in *;
    [|reflexivity].
  rewrite Hthis.
  destruct (scanForDomains content (domains (this s))) as [ms|e]; simpl;
    [|reflexivity].
  destruct (Nat.ltb 0 (List.length ms) || url_mentions item (domains (this s)));
    simpl; [|reflexivity].
  destruct (detectCredentials content) as [cs|e]; simpl; [|reflexivity].
  destruct (Nat.ltb 0 (List.length cs)); simpl; [|reflexivity].
  unfold new_Date. destruct (date_now (world s1)) as [ts w]. reflexivity.
Qed.

Lemma prefix_spec (d s : string) :
  String.prefix d s = true <-> exists after, s = (d ++ after)%string.
Proof.
  revert s. induction d as [|c d IH]; intros s.
  - split; [intros _; now exists s | intros _; now destruct s].
  - destruct s as [|c' s]; simpl.
    + split; [discriminate | intros [after H]; discriminate].
    + destruct (Ascii.ascii_dec c c') as [->|Hne].
      * rewrite IH. split; intros [after H]; exists after; congruence.
      * split; [discriminate | intros [after H]; congruence].
Qed.

Lemma includes_empty (d : string) : includes "" d = String.prefix d "".
Proof. unfold includes. apply orb_false_r. Qed.

Lemma includes_String c (s d : string) :
  includes (String c s) d = String.prefix d (String c s) || includes s d.
Proof. reflexivity. Qed.

(** [includes] decides the substring relation. *)
Lemma includes_spec (s d : string) :
  includes s d = true <->
  exists before after, s = (before ++ d ++ after)%string.
Proof.
  induction s as [|c s IH].
  - rewrite includes_empty, prefix_spec. split.
    + intros [after H]. now exists "", after.
    + intros [before [after H]].
      destruct before; [now exists after|discriminate].
  - rewrite includes_String, orb_true_iff, prefix_spec, IH. split.
    + intros [[after H]|[before [after H]]].
      * now exists "", after.
      * exists (String c before), after. simpl. now rewrite H.
    + intros [before [after H]]. destruct before as [|c' before]; simpl in H.
      * left. now exists after.
      * right. exists before, after. congruence.
Qed.

Lemma truthy_spec (v : JsString) :
  truthy v = true <-> exists u, v = Some u /\ u <> "".
Proof.
  destruct v as [u|]; simpl.
  - rewrite negb_true_iff. split.
    + intros H. exists u. split; [reflexivity|].
      intros ->. discriminate.
    + intros [u' [[= <-] Hne]]. now apply String.eqb_neq.
  - split; [discriminate | intros [u [[=] _]]].
Qed.

Lemma url_mentions_spec item ds :
  url_mentions item ds = true <-> display_url_contains item ds.
Proof.
  unfold url_mentions, display_url_contains.
  rewrite andb_true_iff, truthy_spec, existsb_exists. split.
  - intros [[u [Hu Hne]] [d [Hd Hin]]]. rewrite Hu in Hin. simpl in Hin.
    apply includes_spec in Hin. destruct Hin as [before [after H]].
    now exists u, d, before, after.
  - intros [u [d [before [after [Hu [Hne [Hd H]]]]]]]. split.
    + now exists u.
    + exists d. split; [exact Hd|]. rewrite Hu. simpl.
      apply includes_spec. now exists before, after.
Qed.

Lemma nonempty_spec {A} (l : list A) : Nat.ltb 0 (List.length l) = true <-> l <> [].
Proof.
  destruct l; simpl; split; try congruence; try discriminate; reflexivity.
Qed.

Lemma domain_condition_spec item ds (ms : list string) :
  Nat.ltb 0 (List.length ms) || url_mentions item ds = true <->
  ms <> [] \/ display_url_contains item ds.
Proof. now rewrite orb_true_iff, nonempty_spec, url_mentions_spec. Qed.

(** C1. For an item whose content resolves and on which both detectors
    return, the pipeline yields a Finding if and only if the decision rule
    holds: [scanForDomains] found a domain in the content or the display URL
    contains a watched domain, and [detectCredentials] found a credential.
    When the rule fails the pipeline returns the empty list. *)
Theorem analyzeContent_decision_rule item s content s1 ms cs :
  resolveContent item s = (Ret content, s1) ->
  scanForDomains content (domains (this s)) = Ret ms ->
  detectCredentials content = Ret cs ->
  ((exists f s', analyzeContent item s = (Ret [f], s')) <->
   decision_rule item (domains (this s)) ms cs) /\
  (~ decision_rule item (domains (this s)) ms cs ->
   analyzeContent item s = (Ret [], s1)).
Proof.
  intros Hres Hscan Hdet. unfold decision_rule.
  rewrite <- domain_condition_spec, <- nonempty_spec.
  rewrite analyzeContent_unfold, Hres, Hscan, Hdet.
  destruct (Nat.ltb 0 (List.length ms) || url_mentions item (domains (this s)));
    destruct (Nat.ltb 0 (List.length cs)).
  - destruct (new_Date s1) as [[ts|e] s2] eqn:Hd.
    + split; [|intros H; exfalso; apply H; now split].
      split; [now split|]. intros _. now exists (new_finding ts item content ms cs), s2.
    + unfold new_Date in Hd. destruct (date_now (world s1)). discriminate.
  - split; [|reflexivity].
    split; [intros [f [s' H]]; discriminate | intros [_ H]; discriminate].
  - split; [|reflexivity].
    split; [intros [f [s' H]]; discriminate | intros [H _]; discriminate].
  - split; [|reflexivity].
    split; [intros [f [s' H]]; discriminate | intros [H _]; discriminate].
Qed.

(** Every run of the pipeline either returns nothing or returns the one
    finding built from the resolved content and the detector results. *)
Lemma analyzeContent_cases item s :
  (exists s', analyzeContent item s = (Ret [], s')) \/
  (exists content s1 ms cs ts s',
     resolveContent item s = (Ret content, s1) /\
     scanForDomains content (domains (this s)) = Ret ms /\
     detectCredentials content = Ret cs /\
     decision_rule item (domains (this s)) ms cs /\
     new_Date s1 = (Ret ts, s') /\
     analyzeContent item s = (Ret [new_finding ts item content ms cs], s')).
Proof.
  rewrite analyzeContent_unfold. unfold decision_rule.
  destruct (resolveContent item s) as [[content|e] s1] eqn:Hres;
    [|left; now exists s1].
  destruct (scanForDomains content (domains (this s))) as [ms|e] eqn:Hscan;
    [|left; now exists s1].
  destruct (Nat.ltb 0 (List.length ms) || url_mentions item (domains (this s)))
    eqn:Hdom; [|left; now exists s1].
  destruct (detectCredentials content) as [cs|e] eqn:Hdet;
    [|left; now exists s1].
  destruct (Nat.ltb 0 (List.length cs)) eqn:Hcs; [|left; now exists s1].
  destruct (new_Date s1) as [[ts|e] s2] eqn:Hd; [|left; now exists s2].
  right. exists content, s1, ms, cs, ts, s2.
  apply domain_condition_spec in Hdom. apply nonempty_spec in Hcs.
  split; [reflexivity|]. split; [exact Hscan|]. split; [exact Hdet|].
  split; [now split|]. now split.
Qed.

(** C3, as the code has it. Every Finding the pipeline returns has a
    non-empty [credentials] list, and its [matchedDomains] is exactly what
    [scanForDomains] returned for the content: non-empty when the content
    mentions a watched domain, and otherwise empty, the Finding then being
    due to the display URL containing a watched domain. *)
Theorem finding_domains_and_credentials item s fs s' f :
  analyzeContent item s = (Ret fs, s') ->
  In f fs ->
  credentials f <> [] /\
  (exists content s1,
     resolveContent item s = (Ret content, s1) /\
     scanForDomains content (domains (this s)) = Ret (matchedDomains f)) /\
  (matchedDomains f <> [] \/
   matchedDomains f = [] /\ display_url_contains item (domains (this s))).
Proof.
  intros Hrun Hin.
  destruct (analyzeContent_cases item s) as
    [[s0 H]|[content [s1 [ms [cs [ts [s2 [Hres [Hscan [Hdet [[Hdom Hcs] [_ H]]]]]]]]]]]];
    rewrite H in Hrun; injection Hrun as <- <-.
  - destruct Hin.
  - destruct Hin as [<-|[]]. simpl. split; [exact Hcs|]. split.
    + now exists content, s1.
    + destruct ms as [|m ms]; [right|left; discriminate].
      split; [reflexivity|]. destruct Hdom as [Hne|Hurl]; [now destruct Hne|exact Hurl].
Qed.

(** C10. One run of the pipeline never throws and returns at most one
    Finding. *)
Theorem analyzeContent_at_most_one item s :
  exists fs, fst (analyzeContent item s) = Ret fs /\ List.length fs <= 1.
Proof.
  destruct (analyzeContent_cases item s) as
    [[s0 H]|[content [s1 [ms [cs [ts [s2 [_ [_ [_ [_ [_ H]]]]]]]]]]]];
    rewrite H; simpl; eexists; split; try reflexivity; simpl; lia.
Qed.

Lemma alert_run fs s : exists s', alert fs s = (Ret tt, s').
Proof.
  assert (H : returns (alert fs)).
  { unfold alert. apply returns_for_of. intros f. apply returns_modify. }
  destruct (H s) as [[] Ha]. destruct (alert fs s) as [o s'].
  simpl in Ha. subst o. now exists s'.
Qed.

(** ** The loop of [check] over a connector's items *)

Lemma analyze_each_skip item rest c s s1 :
  analyzeContent item s = (Ret [], s1) ->
  analyze_each (item :: rest) (c, s) = analyze_each rest (c, s1).
Proof.
  intros H. unfold analyze_each. simpl.
  unfold bind at 1. unfold bind at 1. rewrite lift_run, H. reflexivity.
Qed.

Lemma analyze_each_found item rest c s fs s1 :
  analyzeContent item s = (Ret fs, s1) ->
  fs <> [] ->
  analyze_each (item :: rest) (c, s) =
  analyze_each rest ((fst c, snd c + List.length fs), reported fs s1).
Proof.
  intros H Hne. unfold analyze_each. simpl.
  unfold bind at 1. unfold bind at 1. rewrite lift_run, H. simpl.
  apply nonempty_spec in Hne. rewrite Hne. simpl.
  unfold reported, bind, set_local, modify, lift. simpl.
  destruct (alert_run fs (snd (push_findings fs s1))) as [s2 Ha].
  simpl in Ha. rewrite Ha. reflexivity.
Qed.

(** C7. When an error is raised for an item, while its content is resolved
    or inside a detector, the pipeline returns no Finding for it, the object
    is as it was, and the loop of the tick goes on with the remaining
    items. *)
Theorem item_error_is_contained item s s1 :
  raises item s s1 ->
  analyzeContent item s = (Ret [], s1) /\
  this s1 = this s /\
  forall rest c, analyze_each (item :: rest) (c, s) = analyze_each rest (c, s1).
Proof.
  intros Hr.
  assert (Hrun : analyzeContent item s = (Ret [], s1)).
  { rewrite analyzeContent_unfold.
    destruct Hr as [e Hres|content e Hres Hscan|content ms e Hres Hscan Hdom Hdet];
      rewrite Hres; try reflexivity; rewrite Hscan; try reflexivity.
    apply domain_condition_spec in Hdom. rewrite Hdom, Hdet. reflexivity. }
  split; [exact Hrun|]. split.
  - pose proof (analyzeContent_quiet item s) as H. rewrite Hrun in H.
    unfold unchanged, object_view in H. simpl in H. congruence.
  - intros rest c. now apply analyze_each_skip.
Qed.

(** ** The code-search connector *)

Lemma push_hits_run items : forall results (s : State),
  for_of items (fun item =>
    r <- of_outcome (code_result item);;
    set_local (fun results => results ++ [r])) (results, s) =
  (fst (push_hits items results), (snd (push_hits items results), s)).
Proof.
  induction items as [|item items IH]; intros results s; simpl.
  - reflexivity.
  - unfold bind at 1. unfold bind at 1. unfold of_outcome at 1.
    destruct (code_result item) as [r|e]; simpl; [apply IH | reflexivity].
Qed.


Lemma search_code_run q results s :
  let r := search_request (token (this s)) q in
  exists s1,
    this s1 = this s /\
    requests (trace s1) = requests (trace s) ++ [r] /\
    search_code q (results, s) =
      match fst (http_get r (world s)) with
      | Throw e => (Throw e, (results, s1))
      | Ret d =>
          match data_items d with
          | Throw e => (Throw e, (results, s1))
          | Ret items =>
              (fst (push_hits items results),
               (snd (push_hits items results), s1))
          end
      end.
Proof.
  intros r.
  exists (snd (github_get "/search/code" (Some q) (Some 30%Z) s)).
  unfold search_code. unfold bind at 1. rewrite lift_run.
  unfold github_get. subst r. unfold search_request.
  destruct (http_get _ (world s)) as [[d|e] w]; simpl;
    (split; [reflexivity|]); (split; [now rewrite requests_app|]);
    [|reflexivity].
  unfold bind at 1. unfold of_outcome at 1.
  destruct (data_items d) as [items|e]; simpl; [|reflexivity].
  apply push_hits_run.
Qed.

Lemma verbose_error_run l (results : list Item) (s : State) :
  exists s',
    (v <- lift (gets (fun s => verbose (this s)));;
     when v (lift (console_error l))) (results, s) =
    (Ret tt, (results, s')) /\
    this s' = this s /\ requests (trace s') = requests (trace s).
Proof.
  unfold bind, lift, gets, when. simpl.
  destruct (verbose (this s)); simpl; eexists; repeat split.
  simpl. rewrite requests_app. simpl. apply app_nil_r.
Qed.

(** The requests of one domain: the password query, and the api_key query
    unless the first block threw. *)
Lemma search_domain_shape d results s :
  exists results' s' grp,
    search_domain d (results, s) = (Ret tt, (results', s')) /\
    this s' = this s /\
    requests (trace s') = requests (trace s) ++ grp /\
    (grp = [password_query (token (this s)) d] \/
     grp = [password_query (token (this s)) d;
            api_key_query (token (this s)) d]).
Proof.
  unfold search_domain, try_catch. unfold bind at 1.
  destruct (search_code_run (d ++ " password") results s)
    as [s1 [H1 [R1 E1]]].
  rewrite E1. clear E1.
  assert (Hcatch1 : forall e (res : list Item),
    exists results' s' grp,
      (v <- lift (gets (fun s => verbose (this s)));;
       when v (lift (console_error (LSearchError d e)))) (res, s1) =
      (Ret tt, (results', s')) /\
      this s' = this s /\
      requests (trace s') = requests (trace s) ++ grp /\
      (grp = [password_query (token (this s)) d] \/
       grp = [password_query (token (this s)) d;
              api_key_query (token (this s)) d])).
  { intros e res.
    destruct (verbose_error_run (LSearchError d e) res s1) as [s' [E [Ht Hr]]].
    exists res, s', [password_query (token (this s)) d].
    split; [exact E|]. split; [congruence|]. split; [|now left].
    rewrite Hr, R1. reflexivity. }
  destruct (fst (http_get _ (world s))) as [dat|e]; [|apply Hcatch1].
  destruct (data_items dat) as [items|e]; [|apply Hcatch1].
  destruct (push_hits items results) as [[[]|e] res1]; simpl; [|apply Hcatch1].
  destruct (search_code_run (d ++ " api_key") res1 s1) as [s2 [H2 [R2 E2]]].
  rewrite E2. clear E2. rewrite H1 in R2.
  assert (Hcatch2 : forall e (res : list Item),
    exists results' s' grp,
      (v <- lift (gets (fun s => verbose (this s)));;
       when v (lift (console_error (LSearchError d e)))) (res, s2) =
      (Ret tt, (results', s')) /\
      this s' = this s /\
      requests (trace s') = requests (trace s) ++ grp /\
      (grp = [password_query (token (this s)) d] \/
       grp = [password_query (token (this s)) d;
              api_key_query (token (this s)) d])).
  { intros e res.
    destruct (verbose_error_run (LSearchError d e) res s2) as [s' [E [Ht Hr]]].
    exists res, s', [password_query (token (this s)) d;
                     api_key_query (token (this s)) d].
    split; [exact E|]. split; [congruence|]. split; [|now right].
    rewrite Hr, R2, R1, <- app_assoc. reflexivity. }
  destruct (fst (http_get _ (world s1))) as [dat2|e]; [|apply Hcatch2].
  destruct (data_items dat2) as [items2|e]; [|apply Hcatch2].
  destruct (push_hits items2 res1) as [[[]|e] res2]; simpl; [|apply Hcatch2].
  exists res2, s2, [password_query (token (this s)) d;
                    api_key_query (token (this s)) d].
  split; [reflexivity|]. split; [congruence|]. split; [|now right].
  rewrite R2, R1, <- app_assoc. reflexivity.
Qed.




Lemma search_domain_offline d results s :
  (forall r w, exists e, fst (http_get r w) = Throw e) ->
  exists s',
    search_domain d (results, s) = (Ret tt, (results, s')) /\
    this s' = this s /\
    requests (trace s') =
      requests (trace s) ++ [password_query (token (this s)) d].
Proof.
  intros Hoff.
  unfold search_domain, try_catch. unfold bind at 1.
  destruct (search_code_run (d ++ " password") results s)
    as [s1 [H1 [R1 E1]]].
  rewrite E1. clear E1.
  destruct (Hoff (search_request (token (this s)) (d ++ " password"))
              (world s)) as [e He].
  rewrite He.
  destruct (verbose_error_run (LSearchError d e) results s1) as [s' [E [Ht Hr]]].
  exists s'. split; [exact E|]. split; [congruence|].
  rewrite Hr, R1. reflexivity.
Qed.

(** The loop over the domains never throws; it is a chain of per-domain
    steps, each with the properties every run of [search_domain] has. *)
Lemma search_loop
    (tok : JsString)
    (step : string -> list Item -> list Item -> list Request -> Prop) :
  (forall d results s, token (this s) = tok ->
     exists results' s' grp,
       search_domain d (results, s) = (Ret tt, (results', s')) /\
       this s' = this s /\
       requests (trace s') = requests (trace s) ++ grp /\
       step d results results' grp) ->
  forall ds results s, token (this s) = tok ->
    exists results' s' reqs,
      for_of ds search_domain (results, s) = (Ret tt, (results', s')) /\
      this s' = this s /\
      requests (trace s') = requests (trace s) ++ reqs /\
      per_domain step ds results results' reqs.
Proof.
  intros Hstep ds. induction ds as [|d ds IH]; intros results s Htok.
  - exists results, s, []. simpl. rewrite app_nil_r.
    repeat split. constructor.
  - destruct (Hstep d results s Htok) as [r1 [s1 [g [E1 [H1 [R1 Q1]]]]]].
    destruct (IH r1 s1) as [r2 [s2 [gs [E2 [H2 [R2 Q2]]]]]];
      [now rewrite H1|].
    exists r2, s2, (g ++ gs). simpl. unfold bind at 1. rewrite E1.
    split; [exact E2|]. split; [congruence|]. split.
    + rewrite R2, R1, <- app_assoc. reflexivity.
    + econstructor; eassumption.
Qed.

Lemma scanCodeSearch_run s results' s' :
  for_of (domains (this s)) search_domain ([], s) = (Ret tt, (results', s')) ->
  scanCodeSearch s = (Ret results', s').
Proof.
  intros E. unfold scanCodeSearch, with_locals.
  unfold bind at 1. rewrite lift_run. simpl.
  unfold bind at 1. rewrite E. reflexivity.
Qed.



Lemma per_domain_offline tok ds : forall r r' reqs,
  per_domain (fun d r r' g => r' = r /\ g = [password_query tok d])
    ds r r' reqs ->
  r' = r /\ reqs = map (password_query tok) ds.
Proof.
  induction ds as [|d ds IH]; intros r r' reqs H;
    inversion H as [|d' ds' ra r1 rb g gs Hstep Hrest]; subst.
  - now split.
  - destruct Hstep as [-> ->]. destruct (IH _ _ _ Hrest) as [-> ->].
    now split.
Qed.

Lemma scanCodeSearch_offline s :
  (forall r w, exists e, fst (http_get r w) = Throw e) ->
  exists s', scanCodeSearch s = (Ret [], s') /\ this s' = this s.
Proof.
  intros Hoff.
  destruct (search_loop (token (this s))
              (fun d r r' g => r' = r /\ g = [password_query (token (this s)) d]))
    with (ds := domains (this s)) (results := @nil Item) (s := s)
    as [r' [s' [reqs [E [Ht [_ Hper]]]]]]; [|reflexivity|].
  { intros d results s0 Htok.
    destruct (search_domain_offline d results s0 Hoff) as [s1 [E [H1 R1]]].
    exists results, s1, [password_query (token (this s)) d].
    rewrite Htok in R1. now repeat split. }
  apply per_domain_offline in Hper. destruct Hper as [-> _].
  exists s'. split; [now apply scanCodeSearch_run | exact Ht].
Qed.

Lemma search_code_on_net net q results s :
  (forall r w, fst (http_get r w) = net r) ->
  exists s1,
    this s1 = this s /\
    search_code q (results, s) =
      (fst (query_results net (search_request (token (this s)) q) results),
       (snd (query_results net (search_request (token (this s)) q) results),
        s1)).
Proof.
  intros Hnet.
  destruct (search_code_run q results s) as [s1 [H1 [_ E1]]].
  exists s1. split; [exact H1|]. rewrite E1, Hnet. unfold query_results.
  destruct (net _) as [d|e]; [|reflexivity].
  destruct (data_items d); reflexivity.
Qed.

Lemma search_domain_on_net net d results s :
  (forall r w, fst (http_get r w) = net r) ->
  exists s',
    search_domain d (results, s) =
      (Ret tt, (domain_results net (token (this s)) d results, s')) /\
    this s' = this s.
Proof.
  intros Hnet. unfold search_domain, try_catch, domain_results.
  unfold bind at 1.
  destruct (search_code_on_net net (d ++ " password") results s Hnet)
    as [s1 [H1 E1]].
  rewrite E1. unfold password_query, api_key_query.
  destruct (query_results net
              (search_request (token (this s)) (d ++ " password")) results)
    as [[[]|e] r1]; simpl.
  - destruct (search_code_on_net net (d ++ " api_key") r1 s1 Hnet)
      as [s2 [H2 E2]].
    rewrite E2, H1.
    destruct (query_results net
                (search_request (token (this s)) (d ++ " api_key")) r1)
      as [[[]|e] r2]; simpl.
    + exists s2. split; [reflexivity | congruence].
    + destruct (verbose_error_run (LSearchError d e) r2 s2)
        as [s' [E [Ht _]]].
      exists s'. split; [exact E | congruence].
  - destruct (verbose_error_run (LSearchError d e) r1 s1) as [s' [E [Ht _]]].
    exists s'. split; [exact E | congruence].
Qed.

Lemma per_domain_fold net tok ds : forall r r' reqs,
  per_domain (fun d r r' _ => r' = domain_results net tok d r) ds r r' reqs ->
  r' = fold_left (fun r d => domain_results net tok d r) ds r.
Proof.
  induction ds as [|d ds IH]; intros r r' reqs H;
    inversion H as [|d' ds' ra r1 rb g gs Hstep Hrest]; subst.
  - reflexivity.
  - simpl. now apply IH with (reqs := gs).
Qed.

Lemma push_hits_extends items : forall r,
  exists more, snd (push_hits items r) = r ++ more.
Proof.
  induction items as [|item items IH]; intros r; simpl.
  - exists []. now rewrite app_nil_r.
  - destruct (code_result item) as [x|e]; simpl.
    + destruct (IH (r ++ [x])) as [more H]. exists (x :: more).
      now rewrite H, <- app_assoc.
    + exists []. now rewrite app_nil_r.
Qed.

Lemma query_results_extends net q r :
  exists more, snd (query_results net q r) = r ++ more.
Proof.
  unfold query_results.
  destruct (net q) as [d|e]; [|exists []; simpl; now rewrite app_nil_r].
  destruct (data_items d) as [items|e];
    [apply push_hits_extends | exists []; simpl; now rewrite app_nil_r].
Qed.

Lemma domain_results_extends net tok d r :
  exists more, domain_results net tok d r = r ++ more.
Proof.
  unfold domain_results.
  destruct (query_results_extends net (password_query tok d) r) as [m1 H1].
  destruct (query_results net (password_query tok d) r) as [[[]|e] r1];
    simpl in H1; subst r1; [|now exists m1].
  destruct (query_results_extends net (api_key_query tok d) (r ++ m1))
    as [m2 H2].
  exists (m1 ++ m2). now rewrite H2, app_assoc.
Qed.






(** ** The gist connector *)

Lemma push_files_run g entries : forall (results : list Item) (s : State),
  for_of entries (fun entry =>
    set_local (fun results => results ++ [gist_result g entry])) (results, s) =
  (Ret tt, (results ++ map (gist_result g) entries, s)).
Proof.
  induction entries as [|entry entries IH]; intros results s; simpl.
  - now rewrite app_nil_r.
  - unfold bind at 1. simpl. rewrite IH, <- app_assoc. reflexivity.
Qed.

Lemma expand_all_run gs : forall (results : list Item) (s : State),
  for_of gs (fun g =>
    entries <- of_outcome (gist_entries g);;
    for_of entries (fun entry =>
      set_local (fun results => results ++ [gist_result g entry])))
    (results, s) =
  (fst (expand_all gs results), (snd (expand_all gs results), s)).
Proof.
  induction gs as [|g gs IH]; intros results s; simpl.
  - reflexivity.
  - unfold bind at 1. unfold bind at 1. unfold of_outcome at 1.
    destruct (gist_entries g) as [entries|e]; simpl; [|reflexivity].
    rewrite push_files_run. apply IH.
Qed.

Lemma expand_all_wf gs : forall results,
  Forall well_formed_gist gs ->
  expand_all gs results = (Ret tt, results ++ flat_map expand gs).
Proof.
  induction gs as [|g gs IH]; intros results Hwf; simpl.
  - now rewrite app_nil_r.
  - inversion Hwf as [|? ? Hg Hrest]; subst.
    unfold well_formed_gist in Hg. unfold gist_entries, expand, gist_files.
    destruct (g_files g) as [fs|]; [|now destruct Hg].
    rewrite IH by exact Hrest. now rewrite <- app_assoc.
Qed.

Lemma length_flat_map_expand gs :
  List.length (flat_map expand gs) =
  list_sum (map (fun g => List.length (gist_files g)) gs).
Proof.
  induction gs as [|g gs IH]; simpl; [reflexivity|].
  rewrite length_app, IH. unfold expand. now rewrite length_map.
Qed.

(** The items and the single request of [scanGists]. *)
Lemma scanGists_run s :
  exists s',
    scanGists s =
      (Ret match fst (http_get (gists_request (token (this s))) (world s)) with
           | Ret (DGists gs) => snd (expand_all gs [])
           | _ => []
           end, s') /\
    this s' = this s /\
    requests (trace s') =
      requests (trace s) ++ [gists_request (token (this s))].
Proof.
  unfold scanGists, with_locals, try_catch.
  unfold bind at 1. unfold bind at 1. rewrite lift_run.
  unfold github_get, gists_request.
  destruct (http_get _ (world s)) as [[d|e] w]; simpl.
  - unfold bind at 1. unfold of_outcome at 1.
    destruct d as [|items|gs|c]; simpl;
      try (match goal with
           | |- context [bind (lift (gets ?f)) ?k (?r, ?x)] =>
               destruct (verbose_error_run
                           (LGistsError "response.data is not iterable") r x)
                 as [s' [E [Ht Hr]]]
           end;
           rewrite E; exists s'; simpl in Ht, Hr |- *;
           split; [reflexivity|]; split; [exact Ht|];
           rewrite Hr, requests_app; reflexivity).
    rewrite expand_all_run.
    destruct (expand_all gs []) as [[[]|e] res]; simpl.
    + eexists. split; [reflexivity|]. split; [reflexivity|].
      simpl. now rewrite requests_app.
    + match goal with
      | |- context [bind (lift (gets ?f)) ?k (?r, ?x)] =>
          destruct (verbose_error_run (LGistsError e) r x)
            as [s' [E [Ht Hr]]]
      end.
      rewrite E. exists s'. simpl in Ht, Hr |- *.
      split; [reflexivity|]. split; [exact Ht|].
      rewrite Hr, requests_app. reflexivity.
  - match goal with
    | |- context [bind (lift (gets ?f)) ?k (?r, ?x)] =>
        destruct (verbose_error_run (LGistsError e) r x)
          as [s' [E [Ht Hr]]]
    end.
    rewrite E. exists s'. simpl in Ht, Hr |- *.
    split; [reflexivity|]. split; [exact Ht|].
    rewrite Hr, requests_app. reflexivity.
Qed.

Lemma scanGists_offline s :
  (forall r w, exists e, fst (http_get r w) = Throw e) ->
  exists s', scanGists s = (Ret [], s') /\ this s' = this s.
Proof.
  intros Hoff.
  pose proof (scanGists_quiet s) as Hq.
  assert (E : fst (scanGists s) = Ret []).
  { unfold scanGists, with_locals, try_catch, bind, lift, github_get. simpl.
    match goal with
    | |- context [http_get ?r ?w] =>
        destruct (Hoff r w) as [e He]; destruct (http_get r w) as [o w']
    end.
    simpl in He. subst o. simpl. destruct (verbose (this s)); reflexivity. }
  destruct (scanGists s) as [o s']. simpl in *. subst o.
  exists s'. split; [reflexivity|].
  unfold unchanged, object_view in Hq. congruence.
Qed.

Lemma contents_of_expanded gs :
  map item_content (flat_map expand gs) =
  map (fun entry => fd_content (snd entry)) (flat_map gist_files gs).
Proof.
  induction gs as [|g gs IH]; simpl; [reflexivity|].
  rewrite !map_app, IH. unfold expand. now rewrite map_map.
Qed.

(** C8. [scanGists] never throws and sends exactly one request, for one page
    of 30 public gists, whatever the watched domains are.  When that fetch
    fails the result is empty; when it returns gists that carry their files
    the result holds one GistResult per file of every gist, in order, with
    the gist's id and url, the file's name and the file's inline content,
    so that its length is the total number of files and its contents are
    the contents of the files. *)
Theorem scanGists_one_result_per_file s :
  exists items s',
    scanGists s = (Ret items, s') /\
    this s' = this s /\
    requests (trace s') =
      requests (trace s) ++ [gists_request (token (this s))] /\
    (forall ds, fst (scanGists (watching ds s)) = Ret items) /\
    (forall e,
       fst (http_get (gists_request (token (this s))) (world s)) = Throw e ->
       items = []) /\
    (forall gs,
       fst (http_get (gists_request (token (this s))) (world s)) =
         Ret (DGists gs) ->
       Forall well_formed_gist gs ->
       items = flat_map expand gs /\
       List.length items =
         list_sum (map (fun g => List.length (gist_files g)) gs) /\
       map item_content items =
         map (fun entry => fd_content (snd entry)) (flat_map gist_files gs)).
Proof.
  destruct (scanGists_run s) as [s' [E [Ht R]]].
  eexists _, s'. split; [exact E|]. split; [exact Ht|]. split; [exact R|].
  split; [|split].
  - intros ds. destruct (scanGists_run (watching ds s)) as [s2 [E2 _]].
    rewrite E2. reflexivity.
  - intros e He. now rewrite He.
  - intros gs Hgs Hwf. rewrite Hgs, expand_all_wf by exact Hwf. simpl.
    split; [reflexivity|].
    split; [apply length_flat_map_expand | apply contents_of_expanded].
Qed.

(** ** The tick *)

Lemma new_Date_run s : exists ts s', new_Date s = (Ret ts, s').
Proof. unfold new_Date. destruct (date_now (world s)) as [ts w]. eauto. Qed.

Lemma returns_new_Date : returns new_Date.
Proof. intros s. destruct (new_Date_run s) as [ts [s' H]]. rewrite H. now exists ts. Qed.

Lemma returns_alert fs : returns (alert fs).
Proof. unfold alert. apply returns_for_of. intros f. apply returns_modify. Qed.

Lemma returns_analyzeContent item : returns (analyzeContent item).
Proof.
  intros s.
  destruct (analyzeContent_cases item s) as
    [[s0 H]|[content [s1 [ms [cs [ts [s2 [_ [_ [_ [_ [_ H]]]]]]]]]]]];
    rewrite H; eexists; reflexivity.
Qed.

Lemma returns_analyze_each items : returns (analyze_each items).
Proof.
  unfold analyze_each. apply returns_for_of. intros item.
  apply returns_bind; [apply returns_lift, returns_analyzeContent|].
  intros fs. apply returns_when.
  apply returns_bind; [apply returns_modify|]. intros _.
  apply returns_bind; [apply returns_lift, returns_modify|]. intros _.
  apply returns_lift, returns_alert.
Qed.

Lemma returns_scan_source a connector f : returns (scan_source a connector f).
Proof.
  unfold scan_source. apply returns_try_catch. intros e.
  apply returns_lift, returns_modify.
Qed.

Lemma returns_check_with c g : returns (check_with c g).
Proof.
  unfold check_with. apply returns_with_locals.
  apply returns_bind; [apply returns_lift, returns_new_Date|]. intros ts.
  apply returns_bind; [apply returns_lift, returns_modify|]. intros _.
  apply returns_bind; [apply returns_lift, returns_modify|]. intros _.
  apply returns_bind; [apply returns_scan_source|]. intros _.
  apply returns_bind; [apply returns_scan_source|]. intros _.
  apply returns_bind; [apply returns_gets|]. intros c0.
  apply returns_lift, returns_modify.
Qed.

Lemma returns_run {S A} (m : M S A) s :
  returns m -> exists a s', m s = (Ret a, s').
Proof.
  intros H. destruct (H s) as [a Ha]. destruct (m s) as [o s'].
  simpl in Ha. subst o. eauto.
Qed.

(** A connector that throws contributes nothing: the counters and the
    object are as before. *)
Lemma scan_source_fails a connector f e c s :
  fails_with e connector ->
  exists s', scan_source a connector f (c, s) = (Ret tt, (c, s')) /\
             this s' = this s.
Proof.
  intros Hf. unfold scan_source, try_catch, bind, lift, gets, when.
  simpl. destruct (verbose (this s)); simpl.
  - destruct (Hf (snd (console_log a s))) as [s1 [E H1]].
    simpl in E. rewrite E. simpl. eexists. split; [reflexivity|].
    simpl. exact H1.
  - destruct (Hf s) as [s1 [E H1]]. rewrite E. simpl.
    eexists. split; [reflexivity|]. simpl. exact H1.
Qed.

(** A connector that returns [items] has them counted and analysed. *)
Lemma scan_source_yields a connector f items c s :
  yields items connector ->
  exists s0, this s0 = this s /\
    scan_source a connector f (c, s) =
    analyze_each items ((fst c + List.length items, snd c), s0).
Proof.
  intros Hy.
  assert (Hgo : forall s0 s1, connector s0 = (Ret items, s1) ->
    try_catch
      (results <- lift connector;;
       set_local (fun c => (fst c + List.length results, snd c));;
       analyze_each results)
      (fun error => lift (console_error (f error))) (c, s0) =
    analyze_each items ((fst c + List.length items, snd c), s1)).
  { intros s0 s1 E. unfold try_catch, bind, lift, set_local, modify. simpl.
    rewrite E. simpl.
    destruct (returns_run (analyze_each items)
                ((fst c + List.length items, snd c), s1)
                (returns_analyze_each items)) as [[] [s2 E2]].
    rewrite E2. reflexivity. }
  unfold scan_source.
  destruct (verbose (this s)) eqn:Hv.
  - destruct (Hy (snd (console_log a s))) as [s1 [E H1]].
    exists s1. split; [exact H1|]. rewrite <- (Hgo _ _ E).
    unfold try_catch, bind, lift, gets, when. simpl. rewrite Hv. reflexivity.
  - destruct (Hy s) as [s1 [E H1]].
    exists s1. split; [exact H1|]. rewrite <- (Hgo _ _ E).
    unfold try_catch, bind, lift, gets, when. simpl. rewrite Hv. reflexivity.
Qed.

Lemma check_with_run c g s :
  exists s0 c1 s1 c2 s2 s3,
    findings (this s0) = findings (this s) /\
    domains (this s0) = domains (this s) /\
    scan_source LSearchingCode c LErrorCode ((0, 0), s0) = (Ret tt, (c1, s1)) /\
    scan_source LScanningGists g LErrorGists (c1, s1) = (Ret tt, (c2, s2)) /\
    check_with c g s = (Ret tt, s3) /\
    this s3 = this s2 /\
    trace s3 = trace s2 ++ [ELog (LScanned (fst c2) (snd c2))].
Proof.
  unfold check_with, with_locals.
  unfold bind at 1. rewrite lift_run.
  destruct (new_Date_run s) as [ts [sa Ea]]. rewrite Ea. simpl.
  unfold bind at 1. rewrite lift_run. simpl.
  unfold bind at 1. rewrite lift_run. simpl.
  match goal with
  | |- context [bind (scan_source LSearchingCode c LErrorCode) _ (_, ?s0)] =>
      set (s0' := s0)
  end.
  destruct (returns_run _ ((0, 0), s0') (returns_scan_source LSearchingCode c LErrorCode))
    as [[] [[c1 s1] E1]].
  destruct (returns_run _ (c1, s1) (returns_scan_source LScanningGists g LErrorGists))
    as [[] [[c2 s2] E2]].
  exists s0', c1, s1, c2, s2.
  unfold bind at 1. rewrite E1.
  unfold bind at 1. rewrite E2.
  unfold bind, local, gets, lift, console_log, emit, modify. simpl.
  eexists. repeat split; try reflexivity.
  - subst s0'. simpl.
    pose proof (new_Date_quiet s) as H. rewrite Ea in H.
    unfold unchanged, object_view in H. simpl in H. congruence.
  - subst s0'. simpl.
    pose proof (new_Date_quiet s) as H. rewrite Ea in H.
    unfold unchanged, object_view in H. simpl in H. congruence.
Qed.

Lemma console_log_this l : preserves (unchanged (fun s => this s)) (console_log l).
Proof. intros s. reflexivity. Qed.

Hint Resolve console_log_this : frame.

Lemma alert_this fs : preserves (unchanged (fun s => this s)) (alert fs).
Proof. unfold alert. frame. Qed.

Lemma reported_findings fs s :
  findings (this (reported fs s)) = findings (this s) ++ fs.
Proof.
  unfold reported, bind. simpl.
  pose proof (alert_this fs (snd (push_findings fs s))) as H.
  destruct (alert fs _) as [o s']. unfold unchanged in H. simpl in *.
  destruct o; simpl; now rewrite H.
Qed.

Lemma reported_domains fs s : domains (this (reported fs s)) = domains (this s).
Proof.
  unfold reported, bind. simpl.
  pose proof (alert_this fs (snd (push_findings fs s))) as H.
  destruct (alert fs _) as [o s']. unfold unchanged in H. simpl in *.
  destruct o; simpl; now rewrite H.
Qed.

(** Items that all satisfy the decision rule yield one Finding each, in
    order, and each is counted. *)
Lemma analyze_each_all_match items : forall c s,
  Forall (satisfies_rule (domains (this s))) items ->
  exists s' new,
    analyze_each items (c, s) =
      (Ret tt, ((fst c, snd c + List.length items), s')) /\
    findings (this s') = findings (this s) ++ new /\
    domains (this s') = domains (this s) /\
    Forall2 (derived_from (domains (this s))) items new.
Proof.
  induction items as [|item items IH]; intros c s Hall.
  - exists s, []. simpl. rewrite Nat.add_0_r, app_nil_r.
    destruct c. repeat split. constructor.
  - inversion Hall as [|? ? Hitem Hrest]; subst.
    destruct (Hitem s eq_refl) as [content [s1 [ms [cs [Hres [Hscan [Hdet [Hdom Hcs]]]]]]]].
    destruct (new_Date_run s1) as [ts [s2 Hd]].
    assert (Hrun : analyzeContent item s =
                   (Ret [new_finding ts item content ms cs], s2)).
    { rewrite analyzeContent_unfold, Hres, Hscan.
      apply domain_condition_spec in Hdom. rewrite Hdom, Hdet.
      apply nonempty_spec in Hcs. rewrite Hcs, Hd. reflexivity. }
    rewrite (analyze_each_found _ _ _ _ _ _ Hrun) by discriminate.
    set (f := new_finding ts item content ms cs) in *.
    assert (Hdoms : domains (this (reported [f] s2)) = domains (this s)).
    { rewrite reported_domains.
      pose proof (analyzeContent_quiet item s) as H. rewrite Hrun in H.
      unfold unchanged, object_view in H. simpl in H. congruence. }
    assert (Hfs : findings (this (reported [f] s2)) = findings (this s) ++ [f]).
    { rewrite reported_findings.
      pose proof (analyzeContent_quiet item s) as H. rewrite Hrun in H.
      unfold unchanged, object_view in H. simpl in H. congruence. }
    destruct (IH (fst c, snd c + List.length [f]) (reported [f] s2))
      as [s' [new [E [Hnew [Hd' Hder]]]]].
    { now rewrite Hdoms. }
    exists s', (f :: new). split; [|split; [|split]].
    + rewrite E. simpl.
      replace (snd c + 1 + List.length items) with (snd c + S (List.length items))
        by lia.
      reflexivity.
    + rewrite Hnew, Hfs, <- app_assoc. reflexivity.
    + congruence.
    + constructor; [|now rewrite Hdoms in Hder].
      now exists ts, content, ms, cs.
Qed.

Lemma scan_source_idle a connector f c s :
  idle connector ->
  exists s', scan_source a connector f (c, s) = (Ret tt, (c, s')) /\
             this s' = this s.
Proof.
  intros [[e Hf]|Hy].
  - now apply scan_source_fails with (e := e).
  - destruct (scan_source_yields a connector f [] c s Hy) as [s0 [H0 E]].
    exists s0. split; [|exact H0]. rewrite E. simpl.
    rewrite Nat.add_0_r. now destruct c.
Qed.

Lemma scan_source_matching a connector f items c s :
  yields items connector ->
  Forall (satisfies_rule (domains (this s))) items ->
  exists s' new,
    scan_source a connector f (c, s) =
      (Ret tt, ((fst c + List.length items, snd c + List.length items), s')) /\
    findings (this s') = findings (this s) ++ new /\
    domains (this s') = domains (this s) /\
    Forall2 (derived_from (domains (this s))) items new.
Proof.
  intros Hy Hall.
  destruct (scan_source_yields a connector f items c s Hy) as [s0 [H0 E]].
  rewrite <- H0 in Hall.
  destruct (analyze_each_all_match items (fst c + List.length items, snd c) s0 Hall)
    as [s' [new [E' [Hnew [Hd Hder]]]]].
  exists s', new. rewrite E, E'. rewrite H0 in *. now repeat split.
Qed.

Lemma check_with_idle c g s :
  idle c -> idle g ->
  exists s' tr,
    check_with c g s = (Ret tt, s') /\
    findings (this s') = findings (this s) /\
    trace s' = tr ++ [ELog (LScanned 0 0)].
Proof.
  intros Hc Hg.
  destruct (check_with_run c g s)
    as [s0 [c1 [s1 [c2 [s2 [s3 [Hf0 [_ [E1 [E2 [E [H3 Htr]]]]]]]]]]]].
  destruct (scan_source_idle LSearchingCode c LErrorCode (0, 0) s0 Hc)
    as [s1' [E1' H1]].
  rewrite E1' in E1. injection E1 as <- <-.
  destruct (scan_source_idle LScanningGists g LErrorGists (0, 0) s1' Hg)
    as [s2' [E2' H2]].
  rewrite E2' in E2. injection E2 as <- <-.
  exists s3, (trace s2'). split; [exact E|]. split; [|exact Htr].
  congruence.
Qed.

(** C2. [check] never throws, whatever its two connectors do.  When both
    connectors throw, and likewise when every request of the real
    connectors fails, the tick prints "Scanned 0 items, found 0" and the
    accumulated findings are as before. *)
Theorem check_never_raises :
  (forall c g s, exists s', check_with c g s = (Ret tt, s')) /\
  (forall c g e1 e2 s,
     fails_with e1 c -> fails_with e2 g ->
     exists s' tr,
       check_with c g s = (Ret tt, s') /\
       findings (this s') = findings (this s) /\
       trace s' = tr ++ [ELog (LScanned 0 0)]) /\
  ((forall r w, exists e, fst (http_get r w) = Throw e) ->
   forall s, exists s' tr,
     check s = (Ret tt, s') /\
     findings (this s') = findings (this s) /\
     trace s' = tr ++ [ELog (LScanned 0 0)]).
Proof.
  split; [|split].
  - intros c g s.
    destruct (returns_run _ s (returns_check_with c g)) as [[] [s' E]].
    now exists s'.
  - intros c g e1 e2 s H1 H2.
    apply check_with_idle; left; eauto.
  - intros Hoff s. unfold check.
    apply check_with_idle; right; intros s0.
    + now apply scanCodeSearch_offline.
    + now apply scanGists_offline.
Qed.

(** C4. When one connector throws and the other returns [N] items that
    satisfy the decision rule, the tick appends exactly [N] Findings, one
    derived from each item in order, and reports [N] items scanned and [N]
    leaks, whichever of the two connectors is the failing one. *)
Theorem surviving_connector_is_reported e failing working items s :
  fails_with e failing ->
  yields items working ->
  Forall (satisfies_rule (domains (this s))) items ->
  (exists s' new tr,
     check_with failing working s = (Ret tt, s') /\
     findings (this s') = findings (this s) ++ new /\
     Forall2 (derived_from (domains (this s))) items new /\
     trace s' =
       tr ++ [ELog (LScanned (List.length items) (List.length items))]) /\
  (exists s' new tr,
     check_with working failing s = (Ret tt, s') /\
     findings (this s') = findings (this s) ++ new /\
     Forall2 (derived_from (domains (this s))) items new /\
     trace s' =
       tr ++ [ELog (LScanned (List.length items) (List.length items))]).
Proof.
  intros Hf Hy Hall. split.
  - destruct (check_with_run failing working s)
      as [s0 [c1 [s1 [c2 [s2 [s3 [Hf0 [Hd0 [E1 [E2 [E [H3 Htr]]]]]]]]]]]].
    destruct (scan_source_fails LSearchingCode failing LErrorCode e (0, 0) s0 Hf)
      as [s1' [E1' H1]].
    rewrite E1' in E1. injection E1 as <- <-.
    assert (Hall1 : Forall (satisfies_rule (domains (this s1'))) items)
      by (rewrite H1, Hd0; exact Hall).
    destruct (scan_source_matching LScanningGists working LErrorGists items
                (0, 0) s1' Hy Hall1) as [s2' [new [E2' [Hnew [_ Hder]]]]].
    rewrite E2' in E2. injection E2 as <- <-.
    exists s3, new, (trace s2'). split; [exact E|].
    split; [rewrite H3, Hnew, H1, Hf0; reflexivity|].
    split; [rewrite H1, Hd0 in Hder; exact Hder|exact Htr].
  - destruct (check_with_run working failing s)
      as [s0 [c1 [s1 [c2 [s2 [s3 [Hf0 [Hd0 [E1 [E2 [E [H3 Htr]]]]]]]]]]]].
    assert (Hall0 : Forall (satisfies_rule (domains (this s0))) items)
      by (rewrite Hd0; exact Hall).
    destruct (scan_source_matching LSearchingCode working LErrorCode items
                (0, 0) s0 Hy Hall0) as [s1' [new [E1' [Hnew [_ Hder]]]]].
    rewrite E1' in E1. injection E1 as <- <-.
    destruct (scan_source_fails LScanningGists failing LErrorGists e
                (0 + List.length items, 0 + List.length items) s1' Hf)
      as [s2' [E2' H2]].
    simpl in E2, E2'. rewrite E2' in E2. injection E2 as <- <-.
    exists s3, new, (trace s2'). split; [exact E|].
    split; [rewrite H3, H2, Hnew, Hf0; reflexivity|].
    split; [rewrite Hd0 in Hder; exact Hder|exact Htr].
Qed.

(** ** The scheduler *)

Lemma quiet_keeps_schedule {A} (m : M State A) :
  preserves (unchanged object_view) m -> preserves (unchanged schedule_view) m.
Proof.
  intros H s. specialize (H s).
  unfold unchanged, schedule_view, settings_view, object_view in *.
  injection H as H1 H2 H3 H4. now rewrite H1, H2, H3, H4.
Qed.

Lemma console_log_schedule l :
  (forall ts, l <> LScanning ts) ->
  preserves (unchanged schedule_view) (console_log l).
Proof.
  intros Hl s. unfold unchanged, schedule_view, settings_view. simpl.
  rewrite ticks_app. destruct l; simpl; rewrite ?Nat.add_0_r; try reflexivity.
  now destruct (Hl ts).
Qed.

Lemma console_error_schedule l :
  preserves (unchanged schedule_view) (console_error l).
Proof. apply quiet_keeps_schedule, console_error_quiet. Qed.

Lemma push_findings_schedule fs :
  preserves (unchanged schedule_view) (push_findings fs).
Proof. intros s. reflexivity. Qed.

Lemma analyzeContent_schedule item :
  preserves (unchanged schedule_view) (analyzeContent item).
Proof. apply quiet_keeps_schedule, analyzeContent_quiet. Qed.

Hint Resolve console_error_schedule push_findings_schedule
  analyzeContent_schedule : frame.
Hint Extern 1 (preserves _ (console_log _)) =>
  apply console_log_schedule; discriminate : frame.

Lemma alert_schedule fs : preserves (unchanged schedule_view) (alert fs).
Proof. unfold alert. frame. Qed.

Hint Resolve alert_schedule : frame.

Lemma analyze_each_schedule items :
  preserves (on_global (unchanged schedule_view)) (analyze_each items).
Proof. unfold analyze_each. frame. Qed.

Lemma scan_source_schedule a connector f :
  (forall ts, a <> LScanning ts) ->
  preserves (unchanged object_view) connector ->
  preserves (on_global (unchanged schedule_view)) (scan_source a connector f).
Proof.
  intros Ha Hc. apply quiet_keeps_schedule in Hc.
  unfold scan_source.
  apply preserves_try_catch; [typeclasses eauto| |intros e; frame].
  apply preserves_bind; [typeclasses eauto|frame|intros v].
  apply preserves_bind; [typeclasses eauto| |intros _].
  { apply preserves_when; [typeclasses eauto|].
    apply preserves_lift. now apply console_log_schedule. }
  apply preserves_bind; [typeclasses eauto| |intros results].
  { now apply preserves_lift. }
  apply preserves_bind; [typeclasses eauto|frame|intros _].
  apply analyze_each_schedule.
Qed.

(** A tick with quiet connectors starts exactly one scan and leaves the
    configuration, the running flag and the timers alone. *)
Lemma check_with_schedule c g s :
  preserves (unchanged object_view) c ->
  preserves (unchanged object_view) g ->
  exists s1,
    check_with c g s = (Ret tt, s1) /\
    settings_view s1 = settings_view s /\
    ticks (trace s1) = S (ticks (trace s)).
Proof.
  intros Hc Hg.
  destruct (returns_run _ s (returns_check_with c g)) as [[] [s1 E]].
  exists s1. split; [exact E|].
  revert E. unfold check_with, with_locals.
  unfold bind at 1. rewrite lift_run.
  pose proof (new_Date_quiet s) as Hq.
  destruct (new_Date_run s) as [ts [sa Ea]]. rewrite Ea in *. simpl in Hq |- *.
  unfold bind at 1. rewrite lift_run. simpl.
  unfold bind at 1. rewrite lift_run. simpl.
  match goal with
  | |- context [bind (scan_source LSearchingCode c LErrorCode) ?k ?x] =>
      assert (Htail : preserves (on_global (unchanged schedule_view))
                        (bind (scan_source LSearchingCode c LErrorCode) k));
      [|specialize (Htail x);
        destruct (bind (scan_source LSearchingCode c LErrorCode) k x)
          as [o [c' s']]]
  end.
  { apply preserves_bind; [typeclasses eauto| |intros _].
    { apply scan_source_schedule; [discriminate|exact Hc]. }
    apply preserves_bind; [typeclasses eauto| |intros _].
    { apply scan_source_schedule; [discriminate|exact Hg]. }
    frame. }
  simpl. intros [= _ <-].
  unfold on_global, unchanged, schedule_view, settings_view in Htail.
  simpl in Htail. rewrite ticks_app in Htail. simpl in Htail.
  unfold unchanged, object_view in Hq.
  injection Hq as Hq1 Hq2 Hq3 Hq4.
  injection Htail as H1 H2 H3 H4 H5 H6 H7 H8 H9 H10.
  change (ticks [ELog (LScanning ts)]) with 1 in H10.
  unfold settings_view. simpl.
  split; [congruence | lia].
Qed.

Lemma check_schedule s :
  exists s1,
    check s = (Ret tt, s1) /\
    settings_view s1 = settings_view s /\
    ticks (trace s1) = S (ticks (trace s)).
Proof.
  apply check_with_schedule;
    [apply scanCodeSearch_quiet | apply scanGists_quiet].
Qed.

Lemma log_each_run {A} (line : A -> Line) xs : forall s,
  exists s',
    for_of xs (fun x => console_log (line x)) s = (Ret tt, s') /\
    this s' = this s /\ timers s' = timers s /\
    next_timer s' = next_timer s /\
    trace s' = trace s ++ map (fun x => ELog (line x)) xs.
Proof.
  induction xs as [|x xs IH]; intros s.
  - exists s. simpl. now rewrite app_nil_r.
  - destruct (IH (snd (console_log (line x) s))) as [s' [E [H1 [H2 [H3 H4]]]]].
    exists s'. simpl in *. unfold bind. simpl. rewrite E.
    repeat split; try assumption.
    rewrite H4, <- app_assoc. reflexivity.
Qed.

Lemma printSummary_run s :
  exists s',
    printSummary s = (Ret tt, s') /\
    this s' = this s /\ timers s' = timers s /\
    next_timer s' = next_timer s /\
    trace s' = trace s ++ summary_lines (findings (this s)).
Proof.
  unfold printSummary, summary_lines, bind, gets, when. simpl.
  destruct (Nat.ltb 0 (List.length (findings (this s)))).
  - match goal with
    | |- context [for_of ?xs _ ?x] =>
        destruct (log_each_run LDetail xs x) as [s' [E [H1 [H2 [H3 H4]]]]]
    end.
    exists s'. rewrite E. simpl in *. repeat split; try assumption.
    rewrite H4, <- !app_assoc. reflexivity.
  - eexists. repeat split.
Qed.

Lemma filter_disarmed id (ts : list Timer) :
  existsb (fun t => Nat.eqb (timer_id t) id) ts = false ->
  filter (fun t => negb (Nat.eqb (timer_id t) id)) ts = ts.
Proof.
  induction ts as [|t ts IH]; simpl; [reflexivity|].
  intros H. apply orb_false_iff in H. destruct H as [Ht Hts].
  rewrite Ht. simpl. now rewrite IH.
Qed.

Lemma disarmed_by_filter id (ts : list Timer) :
  existsb (fun t => Nat.eqb (timer_id t) id)
    (filter (fun t => negb (Nat.eqb (timer_id t) id)) ts) = false.
Proof.
  induction ts as [|t ts IH]; simpl; [reflexivity|].
  destruct (Nat.eqb (timer_id t) id) eqn:E; simpl; [exact IH|].
  now rewrite E, IH.
Qed.

Lemma stop_run s :
  exists s1,
    stop s = (Ret tt, s1) /\
    isRunning (this s1) = false /\
    (forall id, intervalId (this s) = Some id -> armed id s1 = false) /\
    stop s1 = (Ret tt, s1).
Proof.
  unfold stop, bind, set_isRunning, gets, modify, with_this. simpl.
  destruct (intervalId (this s)) as [i|] eqn:Hid.
  - eexists. split; [reflexivity|]. simpl. split; [reflexivity|]. split.
    + intros id [= <-]. unfold armed. simpl. apply disarmed_by_filter.
    + unfold clearInterval, modify. simpl.
      rewrite filter_disarmed by apply disarmed_by_filter. reflexivity.
  - eexists. split; [reflexivity|]. simpl. split; [reflexivity|]. split.
    + intros id [=].
    + reflexivity.
Qed.

Lemma stop_when_stopped s :
  isRunning (this s) = false ->
  (forall id, intervalId (this s) = Some id -> armed id s = false) ->
  stop s = (Ret tt, s).
Proof.
  intros Hrun Harm.
  destruct s as [m w ts nt tr]. destruct m as [ds i v o tok r lc fs iid].
  unfold stop, bind, set_isRunning, gets, modify, with_this, armed in *.
  simpl in *. subst r. destruct iid as [id|]; simpl.
  - unfold clearInterval, modify. simpl.
    rewrite filter_disarmed by now apply Harm. reflexivity.
  - reflexivity.
Qed.

(** C9. [stop] returns normally with [isRunning] false and the timer of
    [intervalId] disarmed; a second [stop] leaves that state as it is, and
    so does a [stop] on a monitor that is not running and has no armed
    timer of its own. *)
Theorem stop_idempotent s :
  exists s1,
    stop s = (Ret tt, s1) /\
    isRunning (this s1) = false /\
    (forall id, intervalId (this s) = Some id -> armed id s1 = false) /\
    stop s1 = (Ret tt, s1) /\
    (isRunning (this s) = false ->
     (forall id, intervalId (this s) = Some id -> armed id s = false) ->
     s1 = s).
Proof.
  destruct (stop_run s) as [s1 [E [Hrun [Harm Hagain]]]].
  exists s1. repeat split; try assumption.
  intros H1 H2. rewrite (stop_when_stopped s H1 H2) in E. congruence.
Qed.

Lemma settings_armed id s s' :
  settings_view s' = settings_view s -> armed id s' = armed id s.
Proof.
  unfold settings_view, armed. intros H. injection H as _ _ _ _ _ _ _ Ht _.
  now rewrite Ht.
Qed.

Lemma due_times_S n id s :
  due_times (S n) id s = snd (timer_due id (due_times n id s)).
Proof. reflexivity. Qed.

Lemma due_times_armed n id s :
  armed id s = true ->
  settings_view (due_times n id s) = settings_view s /\
  ticks (trace (due_times n id s)) = ticks (trace s) + n.
Proof.
  intros Harm. induction n as [|n [IHs IHt]].
  - unfold due_times. simpl. now rewrite Nat.add_0_r.
  - rewrite due_times_S. unfold timer_due.
    rewrite (settings_armed id _ _ IHs), Harm.
    destruct (check_schedule (due_times n id s)) as [s1 [E [Hs Ht]]].
    rewrite E. simpl. split; [congruence|]. rewrite Ht, IHt. lia.
Qed.




End Facts.

(** ** Concrete runs on the scripted platforms *)

Lemma analyzeContent_decision_rule_witness :
  resolveContent leaking_gist idle_acme =
    (Ret "acme.com password123 api_key=sk_live_xxx", idle_acme) /\
  scanForDomains (Platform := scripted offline)
    "acme.com password123 api_key=sk_live_xxx" ["acme.com"] =
    Ret ["acme.com"] /\
  detectCredentials (Platform := scripted offline)
    "acme.com password123 api_key=sk_live_xxx" = Ret ["api_key"] /\
  ((exists f s', analyzeContent leaking_gist idle_acme = (Ret [f], s')) <->
   decision_rule leaking_gist ["acme.com"] ["acme.com"] ["api_key"]) /\
  (~ decision_rule leaking_gist ["acme.com"] ["acme.com"] ["api_key"] ->
   analyzeContent leaking_gist idle_acme = (Ret [], idle_acme)).
Proof.
  split; [reflexivity|]. split; [reflexivity|]. split; [reflexivity|].
  apply (analyzeContent_decision_rule (P := scripted offline)
           leaking_gist idle_acme
           "acme.com password123 api_key=sk_live_xxx" idle_acme
           ["acme.com"] ["api_key"]); reflexivity.
Defined.

(** The body of a gist mentions the domain but no credential: no Finding. *)
Example domain_only_gist_yields_nothing :
  analyzeContent harmless_gist idle_acme = (Ret [], idle_acme).
Proof. reflexivity. Qed.

(** The URL scenario of section 8: the Finding is produced, and its
    [matchedDomains] is empty. *)
Lemma url_only_finding_has_no_matched_domain :
  exists f s',
    analyzeContent url_only_gist idle_acme = (Ret [f], s') /\
    ~ (matchedDomains f <> [] /\ credentials f <> []).
Proof.
  eexists. eexists. split; [reflexivity|].
  simpl. intros [H _]. now apply H.
Qed.

Lemma finding_domains_and_credentials_witness :
  exists f s',
    analyzeContent url_only_gist idle_acme = (Ret [f], s') /\
    In f [f] /\
    credentials f <> [] /\
    (exists content s1,
       resolveContent url_only_gist idle_acme = (Ret content, s1) /\
       scanForDomains (Platform := scripted offline) content
         (domains (this idle_acme)) = Ret (matchedDomains f)) /\
    (matchedDomains f <> [] \/
     matchedDomains f = [] /\
     display_url_contains url_only_gist (domains (this idle_acme))).
Proof.
  eexists. eexists. split; [reflexivity|]. split; [now left|].
  eapply (finding_domains_and_credentials (P := scripted offline)
            url_only_gist idle_acme);
    [reflexivity | now left].
Defined.

Lemma item_error_is_contained_witness :
  raises unreachable_code idle_acme
    (snd (resolveContent unreachable_code idle_acme)) /\
  analyzeContent unreachable_code idle_acme =
    (Ret [], snd (resolveContent unreachable_code idle_acme)) /\
  this (snd (resolveContent unreachable_code idle_acme)) = this idle_acme /\
  forall rest c,
    analyze_each (unreachable_code :: rest) (c, idle_acme) =
    analyze_each rest (c, snd (resolveContent unreachable_code idle_acme)).
Proof.
  assert (H : raises unreachable_code idle_acme
                (snd (resolveContent unreachable_code idle_acme))).
  { apply raises_resolving with (e := "Network Error"). reflexivity. }
  split; [exact H|].
  apply (item_error_is_contained (P := scripted offline) _ _ _ H).
Defined.

Lemma check_never_raises_witness :
  fails_with (P := scripted offline) "code search down" (throw "code search down") /\
  fails_with (P := scripted offline) "gists down" (throw "gists down") /\
  (forall r w, exists e,
     fst (http_get (Platform := scripted offline) r w) = Throw e) /\
  (exists s' tr,
     check_with (throw "code search down") (throw "gists down") idle_acme =
       (Ret tt, s') /\
     findings (this s') = findings (this idle_acme) /\
     trace s' = tr ++ [ELog (LScanned 0 0)]) /\
  (exists s' tr,
     check idle_acme = (Ret tt, s') /\
     findings (this s') = findings (this idle_acme) /\
     trace s' = tr ++ [ELog (LScanned 0 0)]).
Proof.
  assert (H1 : fails_with (P := scripted offline) "code search down"
                 (throw "code search down")).
  { intros s. exists s. now split. }
  assert (H2 : fails_with (P := scripted offline) "gists down"
                 (throw "gists down")).
  { intros s. exists s. now split. }
  assert (H3 : forall r w, exists e,
                 fst (http_get (Platform := scripted offline) r w) = Throw e).
  { intros r w. now exists "Network Error". }
  split; [exact H1|]. split; [exact H2|]. split; [exact H3|].
  destruct (check_never_raises (P := scripted offline)) as [_ [Hmock Hreal]].
  split.
  - exact (Hmock _ _ _ _ idle_acme H1 H2).
  - exact (Hreal H3 idle_acme).
Defined.

(** A gist file carries its content, so whether it satisfies the rule does
    not depend on the state it is analysed in. *)
Lemma gist_satisfies_rule {P : Platform} ds id filename u content ms cs :
  scanForDomains (or_empty content) ds = Ret ms ->
  detectCredentials (or_empty content) = Ret cs ->
  decision_rule (GistResult id filename u content) ds ms cs ->
  satisfies_rule ds (GistResult id filename u content).
Proof.
  intros Hs Hd Hr s Hds. exists (or_empty content), s, ms, cs.
  split; [reflexivity|]. split; [exact Hs|]. split; [exact Hd | exact Hr].
Qed.

Lemma surviving_connector_is_reported_witness :
  fails_with (P := scripted offline) "boom" (throw "boom") /\
  yields (P := scripted offline) [leaking_gist; url_only_gist]
    (ret [leaking_gist; url_only_gist]) /\
  Forall (satisfies_rule (P := scripted offline) (domains (this idle_acme)))
    [leaking_gist; url_only_gist] /\
  (exists s' new tr,
     check_with (throw "boom") (ret [leaking_gist; url_only_gist]) idle_acme =
       (Ret tt, s') /\
     findings (this s') = findings (this idle_acme) ++ new /\
     Forall2 (derived_from (P := scripted offline) (domains (this idle_acme)))
       [leaking_gist; url_only_gist] new /\
     trace s' = tr ++ [ELog (LScanned 2 2)]) /\
  (exists s' new tr,
     check_with (ret [leaking_gist; url_only_gist]) (throw "boom") idle_acme =
       (Ret tt, s') /\
     findings (this s') = findings (this idle_acme) ++ new /\
     Forall2 (derived_from (P := scripted offline) (domains (this idle_acme)))
       [leaking_gist; url_only_gist] new /\
     trace s' = tr ++ [ELog (LScanned 2 2)]).
Proof.
  assert (H1 : fails_with (P := scripted offline) "boom" (throw "boom")).
  { intros s. exists s. now split. }
  assert (H2 : yields (P := scripted offline) [leaking_gist; url_only_gist]
                 (ret [leaking_gist; url_only_gist])).
  { intros s. exists s. now split. }
  assert (H3 : Forall (satisfies_rule (P := scripted offline) (domains (this idle_acme)))
                 [leaking_gist; url_only_gist]).
  { repeat constructor.
    - apply gist_satisfies_rule with (ms := ["acme.com"]) (cs := ["api_key"]);
        [reflexivity | reflexivity |].
      split; [left|]; discriminate.
    - apply gist_satisfies_rule with (ms := []) (cs := ["password"]);
        [reflexivity | reflexivity |].
      split; [right|discriminate].
      apply url_mentions_spec. reflexivity. }
  split; [exact H1|]. split; [exact H2|]. split; [exact H3|].
  exact (surviving_connector_is_reported (P := scripted offline)
           "boom" _ _ _ idle_acme H1 H2 H3).
Defined.




Lemma scanGists_one_result_per_file_witness :
  fst (http_get (Platform := scripted listing)
         (gists_request (token (this listed))) (world listed)) =
    Ret (DGists two_gists) /\
  Forall well_formed_gist two_gists /\
  fst (http_get (Platform := scripted offline)
         (gists_request (token (this idle_acme))) (world idle_acme)) =
    Throw "Network Error" /\
  (exists items s',
     scanGists listed = (Ret items, s') /\
     items =
       [GistResult (Some "aa11") "a.txt" (Some "https://gist.github.com/aa11")
          (Some "password=1");
        GistResult (Some "aa11") "b.txt" (Some "https://gist.github.com/aa11")
          None;
        GistResult (Some "bb22") "c.txt" (Some "https://gist.github.com/bb22")
          (Some "acme.com")] /\
     List.length items = 3 /\
     map item_content items = [Some "password=1"; None; Some "acme.com"]) /\
  (exists s', scanGists idle_acme = (Ret [], s')).
Proof.
  assert (H1 : Forall well_formed_gist two_gists).
  { repeat constructor; discriminate. }
  split; [reflexivity|]. split; [exact H1|]. split; [reflexivity|]. split.
  - destruct (scanGists_one_result_per_file (P := scripted listing) listed)
      as [items [s' [E [_ [_ [_ [_ Hok]]]]]]].
    exists items, s'. split; [exact E|]. exact (Hok two_gists eq_refl H1).
  - destruct (scanGists_one_result_per_file (P := scripted offline) idle_acme)
      as [items [s' [E [_ [_ [_ [Hfail _]]]]]]].
    exists s'. rewrite E. now rewrite (Hfail "Network Error" eq_refl).
Defined.

Lemma stop_idempotent_witness :
  isRunning (this idle_acme) = false /\
  (forall id, intervalId (this idle_acme) = Some id ->
     armed id idle_acme = false) /\
  stop idle_acme = (Ret tt, idle_acme).
Proof.
  assert (H1 : isRunning (this idle_acme) = false) by reflexivity.
  assert (H2 : forall id, intervalId (this idle_acme) = Some id ->
                 armed id idle_acme = false) by discriminate.
  split; [exact H1|]. split; [exact H2|].
  destruct (stop_idempotent (P := scripted offline) idle_acme)
    as [s1 [E [_ [_ [_ Hsame]]]]].
  rewrite E. now rewrite (Hsame H1 H2).
Defined.

(** A continuous start on the offline platform: one tick has run, timer 0
    is armed with the default period, and [stop] disarms it. *)
Example start_then_stop :
  ticks (trace (snd (start idle_acme))) = 1 /\
  timers (snd (start idle_acme)) =
    [{| timer_id := 0; timer_period := 1800000 |}] /\
  isRunning (this (snd (start idle_acme))) = true /\
  timers (snd (stop (snd (start idle_acme)))) = [] /\
  isRunning (this (snd (stop (snd (start idle_acme))))) = false.
Proof. repeat split. Qed.

(** A single run: one tick, the summary, and no timer. *)
Example start_once :
  ticks (trace (snd (start (fresh (P := scripted offline) acme_once 0%Z)))) = 1 /\
  timers (snd (start (fresh (P := scripted offline) acme_once 0%Z))) = [] /\
  List.last (trace (snd (start (fresh (P := scripted offline) acme_once 0%Z))))
    (ELog LStarting) = ELog (LSummary 0).
Proof. repeat split. Qed.

(** * Further properties of the monitor *)

Section Further.

Context {P : Platform}.

(** ** Starting and stopping *)

Lemma start_continuous s :
  once (this s) = false ->
  exists s',
    start s = (Ret tt, s') /\
    timers s' =
      timers s ++ [{| timer_id := next_timer s;
                      timer_period := timer_delay (interval (this s)) |}] /\
    next_timer s' = S (next_timer s) /\
    intervalId (this s') = Some (next_timer s) /\
    once (this s') = false /\
    interval (this s') = interval (this s) /\
    isRunning (this s') = true.
Proof.
  intros Honce.
  destruct (check_schedule (snd ((set_isRunning true;; console_log LStarting) s)))
    as [s1 [E [Hs _]]].
  unfold settings_view in Hs.
  injection Hs as Hd Hi Hv Ho Htok Hr Hid Htm Hnt.
  simpl in Hd, Hi, Hv, Ho, Htok, Hr, Hid, Htm, Hnt.
  unfold start.
  match goal with
  | |- context [bind (set_isRunning true)
                  (fun _ => bind (console_log LStarting) (fun _ => ?k))] =>
      change (bind (set_isRunning true)
                (fun _ => bind (console_log LStarting) (fun _ => k)) s)
        with (k (snd ((set_isRunning true;; console_log LStarting) s)))
  end.
  rewrite (bind_Ret _ _ _ _ _ E).
  unfold bind at 1. unfold gets at 1. rewrite Ho, Honce.
  unfold bind, gets, console_log, emit, modify, setInterval, set_intervalId,
    with_this. simpl.
  eexists. split; [reflexivity|]. simpl.
  rewrite Htm, Hnt, Hi, Ho, Honce, Hr. repeat split.
Qed.

Lemma stop_effect s :
  exists s',
    stop s = (Ret tt, s') /\
    this s' = halted (this s) /\
    world s' = world s /\ trace s' = trace s /\
    next_timer s' = next_timer s /\
    timers s' =
      match intervalId (this s) with
      | Some i => filter (fun t => negb (Nat.eqb (timer_id t) i)) (timers s)
      | None => timers s
      end.
Proof.
  unfold stop, bind, set_isRunning, gets, modify, with_this, clearInterval.
  simpl. destruct (intervalId (this s)) as [i|] eqn:Hid; simpl;
    eexists; repeat split; simpl; unfold halted; now rewrite Hid.
Qed.

Lemma armed_after_filter id i (ts : list Timer) :
  id <> i ->
  existsb (fun t => Nat.eqb (timer_id t) id)
    (filter (fun t => negb (Nat.eqb (timer_id t) i)) ts) =
  existsb (fun t => Nat.eqb (timer_id t) id) ts.
Proof.
  intros Hne. induction ts as [|t ts IH]; simpl; [reflexivity|].
  destruct (Nat.eqb (timer_id t) i) eqn:Ei; simpl.
  - apply Nat.eqb_eq in Ei.
    assert (En : Nat.eqb (timer_id t) id = false)
      by (apply Nat.eqb_neq; congruence).
    now rewrite En, IH.
  - now rewrite IH.
Qed.

(** X1. [stop] clears [isRunning] and disarms the timer of [intervalId] and
    does nothing else: the findings, [lastCheck], the stale [intervalId],
    the trace and every other timer are as before. *)
Theorem stop_touches_nothing_else s :
  exists s',
    stop s = (Ret tt, s') /\
    this s' = halted (this s) /\
    world s' = world s /\ trace s' = trace s /\
    forall id, intervalId (this s) <> Some id -> armed id s' = armed id s.
Proof.
  destruct (stop_effect s) as [s' [E [Ht [Hw [Htr [_ Htm]]]]]].
  exists s'. repeat split; try assumption.
  intros id Hid. unfold armed. rewrite Htm.
  destruct (intervalId (this s)) as [i|]; [|reflexivity].
  apply armed_after_filter. congruence.
Qed.

(** X2. A second [start] without a [stop] in between arms a second timer and
    overwrites the handle of the first, so the later [stop] disarms only the
    second: the first timer stays armed and goes on running one tick each
    time it comes due, with [isRunning] false. *)
Theorem second_start_leaks_a_timer s :
  once (this s) = false ->
  exists s1 s2 s3,
    start s = (Ret tt, s1) /\
    start s1 = (Ret tt, s2) /\
    stop s2 = (Ret tt, s3) /\
    isRunning (this s3) = false /\
    armed (S (next_timer s)) s3 = false /\
    armed (next_timer s) s3 = true /\
    forall n,
      ticks (trace (due_times n (next_timer s) s3)) = ticks (trace s3) + n.
Proof.
  intros Honce.
  destruct (start_continuous s Honce)
    as [s1 [E1 [Ht1 [Hn1 [Hi1 [Ho1 [_ _]]]]]]].
  destruct (start_continuous s1 Ho1)
    as [s2 [E2 [Ht2 [Hn2 [Hi2 [_ [_ _]]]]]]].
  destruct (stop_effect s2) as [s3 [E3 [Hth [_ [_ [_ Htm]]]]]].
  rewrite Hi2, Hn1 in Htm.
  assert (Harm : armed (next_timer s) s3 = true).
  { unfold armed. rewrite Htm, armed_after_filter by lia.
    rewrite Ht2, Ht1, !existsb_app. simpl. rewrite Nat.eqb_refl.
    now rewrite orb_true_r. }
  exists s1, s2, s3. repeat split; try assumption.
  - now rewrite Hth.
  - unfold armed. rewrite Htm. apply disarmed_by_filter.
  - intros n. now apply due_times_armed.
Qed.

Lemma timer_delay_in_range after :
  (1 <= timer_delay after <= TIMEOUT_MAX)%Z.
Proof.
  unfold timer_delay.
  destruct (1 <=? after)%Z eqn:Hlo; destruct (after <=? TIMEOUT_MAX)%Z eqn:Hhi;
    simpl; unfold TIMEOUT_MAX in *; lia.
Qed.

(** X3. The timer a freshly constructed continuous monitor arms always has
    a delay between 1 and 2^31 - 1 milliseconds: the [interval] option when
    that lies in this range, 30 minutes when the option is missing or 0, and
    1 millisecond when the option is negative or above 2^31 - 1. *)
Theorem constructed_period_is_in_range ds options w :
  opt_once options <> Some true ->
  exists s' period,
    start (fresh (constructor ds options) w) = (Ret tt, s') /\
    timers s' = [{| timer_id := 0; timer_period := period |}] /\
    (1 <= period <= TIMEOUT_MAX)%Z /\
    (forall i, opt_interval options = Some i ->
       (1 <= i <= TIMEOUT_MAX)%Z -> period = i) /\
    (opt_interval options = None \/ opt_interval options = Some 0%Z ->
     period = 1800000%Z) /\
    (forall i, opt_interval options = Some i ->
       (i < 0 \/ TIMEOUT_MAX < i)%Z -> period = 1%Z).
Proof.
  intros Honce.
  destruct (start_continuous (fresh (constructor ds options) w))
    as [s' [E [Ht _]]].
  { simpl. destruct (opt_once options) as [[|]|]; congruence. }
  exists s', (timer_delay (interval (constructor ds options))).
  split; [exact E|]. split; [exact Ht|].
  split; [apply timer_delay_in_range|]. simpl. unfold timer_delay, TIMEOUT_MAX.
  split; [|split].
  - intros i -> [Hlo Hhi]. destruct (Z.eqb_spec i 0); [lia|].
    apply Z.leb_le in Hlo. apply Z.leb_le in Hhi. now rewrite Hlo, Hhi.
  - intros [-> | ->]; reflexivity.
  - intros i -> Hout. destruct (Z.eqb_spec i 0); [lia|].
    destruct (Z.leb_spec 1 i); destruct (Z.leb_spec i 2147483647);
      simpl; try reflexivity; lia.
Qed.

(** ** What the pipeline puts into a Finding and onto the trace *)

Lemma substring_length n : forall s,
  String.length (String.substring 0 n s) <= n.
Proof.
  induction n as [|n IH]; intros [|c s]; simpl; try lia.
  specialize (IH s). lia.
Qed.

Lemma substring_is_prefix n : forall s,
  exists rest, s = (String.substring 0 n s ++ rest)%string.
Proof.
  induction n as [|n IH]; intros [|c s]; simpl.
  - now exists "".
  - now exists (String c s).
  - now exists "".
  - destruct (IH s) as [rest H]. exists rest. now rewrite <- H.
Qed.

Lemma substring_of_short n : forall s,
  String.length s <= n -> String.substring 0 n s = s.
Proof.
  induction n as [|n IH]; intros [|c s] H; simpl in *; try reflexivity; try lia.
  rewrite IH by lia. reflexivity.
Qed.

Lemma substring_length_min n : forall s,
  String.length (String.substring 0 n s) = Nat.min n (String.length s).
Proof.
  induction n as [|n IH]; intros [|c s]; simpl; try reflexivity.
  now rewrite IH.
Qed.

(** X4. A Finding describes the item it comes from: it has the item's type
    and display URL, the repository (or gist id) as source and the path (or
    file name) as path, the clock reading taken after the content was
    resolved as timestamp, and as snippet exactly the first 200 characters
    of the resolved content, the whole content when that is not longer. *)
Theorem finding_describes_item item s fs s' f :
  analyzeContent item s = (Ret fs, s') ->
  In f fs ->
  type f = item_type item /\
  url f = item_url item /\
  source f =
    match item with
    | CodeResult r _ _ _ => if truthy r then r else None
    | GistResult id _ _ _ => id
    end /\
  path f =
    match item with
    | CodeResult _ p _ _ => if truthy p then p else None
    | GistResult _ filename _ _ => Some filename
    end /\
  String.length (snippet f) <= 200 /\
  exists content s1 rest,
    resolveContent item s = (Ret content, s1) /\
    content = (snippet f ++ rest)%string /\
    String.length (snippet f) = Nat.min 200 (String.length content) /\
    (String.length content <= 200 -> snippet f = content) /\
    timestamp f = fst (date_now (world s1)).
Proof.
  intros Hrun Hin.
  destruct (analyzeContent_cases item s) as
    [[s0 H]|[content [s1 [ms [cs [ts [s2 [Hres [_ [_ [_ [Hd H]]]]]]]]]]]];
    rewrite H in Hrun; injection Hrun as <- <-; [destruct Hin|].
  destruct Hin as [<-|[]]. simpl.
  split; [reflexivity|]. split; [reflexivity|].
  split; [now destruct item|]. split; [now destruct item|].
  split; [apply substring_length|].
  destruct (substring_is_prefix 200 content) as [rest Hrest].
  exists content, s1, rest. split; [exact Hres|]. split; [exact Hrest|].
  split; [apply substring_length_min|].
  split; [apply substring_of_short|].
  unfold new_Date in Hd. destruct (date_now (world s1)) as [t w].
  now injection Hd as -> _.
Qed.

Lemma resolveContent_trace item s :
  trace (snd (resolveContent item s)) =
  trace s ++ map EGet (content_request (token (this s)) item).
Proof.
  unfold resolveContent, content_request.
  destruct item as [r p u [c|]|id fn u c]; simpl;
    try (now rewrite app_nil_r).
  destruct (String.eqb c ""); simpl; [now rewrite app_nil_r|].
  unfold bind, github_get, of_outcome.
  destruct (http_get _ (world s)) as [[d|e] w]; simpl; [|reflexivity].
  destruct (data_content d); reflexivity.
Qed.

(** X5. The pipeline never writes to the console and sends at most one
    request: a plain GET of the content locator for a code result that has
    one, and nothing at all for a gist file or a code result without a
    locator.  The object is as before. *)
Theorem analyzeContent_footprint item s :
  this (snd (analyzeContent item s)) = this s /\
  trace (snd (analyzeContent item s)) =
    trace s ++ map EGet (content_request (token (this s)) item).
Proof.
  split.
  - pose proof (analyzeContent_quiet item s) as H.
    unfold unchanged, object_view in H. congruence.
  - rewrite <- resolveContent_trace, analyzeContent_unfold.
    destruct (resolveContent item s) as [[content|e] s1]; [|reflexivity].
    destruct (scanForDomains content (domains (this s))) as [ms|e];
      [|reflexivity].
    destruct (Nat.ltb 0 (List.length ms) || url_mentions item (domains (this s)));
      [|reflexivity].
    destruct (detectCredentials content) as [cs|e]; [|reflexivity].
    destruct (Nat.ltb 0 (List.length cs)); [|reflexivity].
    unfold new_Date. now destruct (date_now (world s1)).
Qed.

(** ** The ledger of a tick *)

Lemma appended_nil m : appended [] m = m.
Proof. destruct m. unfold appended. simpl. now rewrite app_nil_r. Qed.

Lemma appended_app a b m : appended b (appended a m) = appended (a ++ b) m.
Proof. unfold appended. simpl. now rewrite app_assoc. Qed.

Lemma alerts_app tr1 tr2 : alerts (tr1 ++ tr2) = alerts tr1 ++ alerts tr2.
Proof.
  induction tr1 as [|[r|[]|l] tr1 IH]; simpl; rewrite ?IH; reflexivity.
Qed.

Lemma alerts_of_alert_lines fs : alerts (map (fun f => ELog (LAlert f)) fs) = fs.
Proof. induction fs as [|f fs IH]; simpl; [reflexivity | now rewrite IH]. Qed.

Lemma github_get_ledger u q n :
  preserves (unchanged ledger_view) (github_get u q n).
Proof.
  intros s. unfold unchanged, ledger_view, github_get.
  destruct (http_get _ (world s)) as [o w]. simpl.
  rewrite alerts_app. simpl. now rewrite app_nil_r.
Qed.

Lemma new_Date_ledger : preserves (unchanged ledger_view) new_Date.
Proof.
  intros s. unfold unchanged, ledger_view, new_Date.
  now destruct (date_now (world s)).
Qed.

Lemma console_error_ledger l :
  preserves (unchanged ledger_view) (console_error l).
Proof.
  intros s. unfold unchanged, ledger_view. simpl.
  rewrite alerts_app. simpl. now rewrite app_nil_r.
Qed.

Hint Resolve github_get_ledger new_Date_ledger console_error_ledger : frame.

Lemma analyzeContent_ledger item :
  preserves (unchanged ledger_view) (analyzeContent item).
Proof. unfold analyzeContent, resolveContent. frame. Qed.

Lemma scanCodeSearch_ledger : preserves (unchanged ledger_view) scanCodeSearch.
Proof. unfold scanCodeSearch, search_domain, search_code. frame. Qed.

Lemma scanGists_ledger : preserves (unchanged ledger_view) scanGists.
Proof. unfold scanGists. frame. Qed.

Lemma reported_ledger fs s :
  this (reported fs s) = appended fs (this s) /\
  alerts (trace (reported fs s)) = alerts (trace s) ++ fs.
Proof.
  unfold reported, bind, alert. simpl.
  match goal with
  | |- context [for_of fs _ ?x] =>
      destruct (log_each_run LAlert fs x) as [s' [E [H1 [_ [_ H4]]]]]
  end.
  rewrite E. simpl in *. split; [exact H1|].
  now rewrite H4, alerts_app, alerts_of_alert_lines.
Qed.

(** The loop over a connector's items pushes and alerts the same findings,
    counts each of them, and finds at most one per item. *)
Lemma analyze_each_ledger items : forall c s,
  exists s' new,
    analyze_each items (c, s) =
      (Ret tt, ((fst c, snd c + List.length new), s')) /\
    this s' = appended new (this s) /\
    alerts (trace s') = alerts (trace s) ++ new /\
    List.length new <= List.length items.
Proof.
  induction items as [|item items IH]; intros c s.
  - exists s, []. simpl. rewrite Nat.add_0_r, appended_nil, app_nil_r.
    destruct c. repeat split. lia.
  - pose proof (analyzeContent_ledger item s) as Hq.
    unfold unchanged, ledger_view in Hq.
    destruct (analyzeContent_cases item s) as
      [[s0 H]|[content [s1 [ms [cs [ts [s2 [_ [_ [_ [_ [_ H]]]]]]]]]]]];
      rewrite H in Hq; simpl in Hq; injection Hq as Hq1 Hq2.
    + rewrite (analyze_each_skip _ _ _ _ _ H).
      destruct (IH c s0) as [s' [new [E [Ht [Ha Hl]]]]].
      exists s', new. rewrite E, Ht, Ha, Hq1, Hq2. repeat split. simpl. lia.
    + rewrite (analyze_each_found _ _ _ _ _ _ H) by discriminate.
      set (f := new_finding ts item content ms cs) in *.
      destruct (reported_ledger [f] s2) as [Hr1 Hr2].
      destruct (IH (fst c, snd c + List.length [f]) (reported [f] s2))
        as [s' [new [E [Ht [Ha Hl]]]]].
      exists s', (f :: new). rewrite E, Ht, Ha, Hr1, Hr2, Hq1, Hq2.
      rewrite appended_app, <- app_assoc. simpl.
      replace (snd c + 1 + List.length new) with (snd c + S (List.length new))
        by lia.
      repeat split. lia.
Qed.

Lemma scan_source_ledger a connector f c s :
  (forall x, a <> LAlert x) ->
  preserves (unchanged ledger_view) connector ->
  exists c' s' new,
    scan_source a connector f (c, s) = (Ret tt, (c', s')) /\
    snd c' = snd c + List.length new /\
    fst c + List.length new <= fst c' /\
    this s' = appended new (this s) /\
    alerts (trace s') = alerts (trace s) ++ new.
Proof.
  intros Ha Hc.
  assert (Hgo : forall s0,
    this s0 = this s -> alerts (trace s0) = alerts (trace s) ->
    exists c' s' new,
      try_catch
        (results <- lift connector;;
         set_local (fun c => (fst c + List.length results, snd c));;
         analyze_each results)
        (fun error => lift (console_error (f error))) (c, s0) =
      (Ret tt, (c', s')) /\
      snd c' = snd c + List.length new /\
      fst c + List.length new <= fst c' /\
      this s' = appended new (this s) /\
      alerts (trace s') = alerts (trace s) ++ new).
  { intros s0 H1 H2.
    pose proof (Hc s0) as Hq. unfold unchanged, ledger_view in Hq.
    unfold try_catch, bind, lift, set_local, modify. simpl.
    destruct (connector s0) as [[items|e] s1]; simpl in Hq |- *;
      injection Hq as Hq1 Hq2.
    - destruct (analyze_each_ledger items
                  (fst c + List.length items, snd c) s1)
        as [s' [new [E [Ht [Hal Hl]]]]].
      rewrite E. simpl in *. exists (fst c + List.length items,
                                     snd c + List.length new), s', new.
      rewrite Ht, Hal, Hq1, Hq2, H1, H2. repeat split. simpl. lia.
    - eexists c, _, []. split; [reflexivity|]. simpl.
      rewrite alerts_app, Hq1, Hq2, H1, H2, appended_nil. simpl.
      rewrite !app_nil_r. repeat split; lia. }
  unfold scan_source.
  destruct (verbose (this s)) eqn:Hv.
  - destruct (Hgo (snd (console_log a s))) as [c' [s' [new H]]].
    + reflexivity.
    + simpl. rewrite alerts_app. destruct a; simpl; rewrite ?app_nil_r;
        try reflexivity. now destruct (Ha f0).
    + exists c', s', new. destruct H as [E H]. split; [|exact H].
      rewrite <- E. unfold try_catch, bind, lift, gets, when. simpl.
      rewrite Hv. reflexivity.
  - destruct (Hgo s eq_refl eq_refl) as [c' [s' [new [E H]]]].
    exists c', s', new. split; [|exact H].
    rewrite <- E. unfold try_catch, bind, lift, gets, when. simpl.
    rewrite Hv. reflexivity.
Qed.

Lemma check_with_stamped c g s :
  exists s0 c1 s1 c2 s2 s3,
    this s0 = stamped (fst (date_now (world s))) (this s) /\
    trace s0 = trace s ++ [ELog (LScanning (fst (date_now (world s))))] /\
    scan_source LSearchingCode c LErrorCode ((0, 0), s0) = (Ret tt, (c1, s1)) /\
    scan_source LScanningGists g LErrorGists (c1, s1) = (Ret tt, (c2, s2)) /\
    check_with c g s = (Ret tt, s3) /\
    this s3 = this s2 /\
    trace s3 = trace s2 ++ [ELog (LScanned (fst c2) (snd c2))].
Proof.
  unfold check_with, with_locals.
  unfold bind at 1. rewrite lift_run.
  unfold new_Date at 1 2. destruct (date_now (world s)) as [ts w]. simpl.
  unfold bind at 1. rewrite lift_run. simpl.
  unfold bind at 1. rewrite lift_run. simpl.
  match goal with
  | |- context [bind (scan_source LSearchingCode c LErrorCode) _ (_, ?s0)] =>
      set (s0' := s0)
  end.
  destruct (returns_run _ ((0, 0), s0') (returns_scan_source LSearchingCode c LErrorCode))
    as [[] [[c1 s1] E1]].
  destruct (returns_run _ (c1, s1) (returns_scan_source LScanningGists g LErrorGists))
    as [[] [[c2 s2] E2]].
  exists s0', c1, s1, c2, s2.
  unfold bind at 1. rewrite E1.
  unfold bind at 1. rewrite E2.
  unfold bind, local, gets, lift, console_log, emit, modify. simpl.
  eexists. repeat split; reflexivity.
Qed.

(** *** What a tick sends *)

#[export] Instance sends_only_preorder : PreOrder sends_only.
Proof.
  split.
  - intros s. split; [reflexivity|]. exists []. rewrite app_nil_r.
    split; [reflexivity | constructor].
  - intros a b c [Hab [tr1 [E1 F1]]] [Hbc [tr2 [E2 F2]]].
    split; [congruence|]. exists (tr1 ++ tr2).
    split; [now rewrite E2, E1, app_assoc|].
    rewrite requests_app. apply Forall_app. split; [exact F1|].
    now rewrite <- Hab.
Qed.

Lemma sends_nothing {A} (m : M State A) :
  (forall s, token (this (snd (m s))) = token (this s) /\
             exists tr, trace (snd (m s)) = trace s ++ tr /\ requests tr = []) ->
  preserves sends_only m.
Proof.
  intros H s. destruct (H s) as [Ht [tr [E R]]].
  split; [exact Ht|]. exists tr. split; [exact E|]. rewrite R. constructor.
Qed.

Lemma new_Date_sends : preserves sends_only new_Date.
Proof.
  apply sends_nothing. intros s. unfold new_Date.
  destruct (date_now (world s)). simpl. split; [reflexivity|].
  exists []. now rewrite app_nil_r.
Qed.

Lemma console_log_sends l : preserves sends_only (console_log l).
Proof.
  apply sends_nothing. intros s. simpl. split; [reflexivity|].
  now exists [ELog l].
Qed.

Lemma console_error_sends l : preserves sends_only (console_error l).
Proof.
  apply sends_nothing. intros s. simpl. split; [reflexivity|].
  now exists [EError l].
Qed.

Lemma push_findings_sends fs : preserves sends_only (push_findings fs).
Proof.
  apply sends_nothing. intros s. simpl. split; [reflexivity|].
  exists []. now rewrite app_nil_r.
Qed.

Lemma set_lastCheck_sends ts : preserves sends_only (set_lastCheck ts).
Proof.
  apply sends_nothing. intros s. simpl. split; [reflexivity|].
  exists []. now rewrite app_nil_r.
Qed.

Lemma github_get_sends u q n :
  (u = "/search/code" /\ q <> None /\ n = Some 30%Z) \/
  (u = "/gists/public" /\ q = None /\ n = Some 30%Z) \/
  (q = None /\ n = None) ->
  preserves sends_only (github_get u q n).
Proof.
  intros Hkind s. unfold github_get.
  destruct (http_get _ (world s)) as [o w]. simpl.
  split; [reflexivity|]. eexists [EGet _]. split; [reflexivity|].
  simpl. constructor; [|constructor]. split; [reflexivity|]. simpl.
  destruct Hkind as [[-> [Hq ->]]|[[-> [-> ->]]|[-> ->]]].
  - left. now repeat split.
  - right. left. reflexivity.
  - right. right. now split.
Qed.

Hint Resolve new_Date_sends console_log_sends console_error_sends
  push_findings_sends set_lastCheck_sends : frame.
Hint Extern 1 (preserves sends_only (github_get _ _ _)) =>
  apply github_get_sends;
  first [ solve [left; repeat split; discriminate]
        | solve [right; left; repeat split; reflexivity]
        | solve [right; right; split; reflexivity] ] : frame.

Lemma scan_source_sends a connector f :
  preserves sends_only connector ->
  preserves (on_global sends_only) (scan_source a connector f).
Proof.
  intros Hc.
  unfold scan_source, analyze_each, analyzeContent, resolveContent, alert.
  frame.
Qed.

Lemma scanCodeSearch_sends : preserves sends_only scanCodeSearch.
Proof. unfold scanCodeSearch, search_domain, search_code. frame. Qed.

Lemma scanGists_sends : preserves sends_only scanGists.
Proof. unfold scanGists. frame. Qed.

Lemma check_sends : preserves sends_only check.
Proof.
  unfold check, check_with.
  apply preserves_with_locals.
  apply preserves_bind; [typeclasses eauto|frame|intros ts].
  apply preserves_bind; [typeclasses eauto|frame|intros _].
  apply preserves_bind; [typeclasses eauto|frame|intros _].
  apply preserves_bind; [typeclasses eauto| |intros _].
  { apply scan_source_sends, scanCodeSearch_sends. }
  apply preserves_bind; [typeclasses eauto| |intros _].
  { apply scan_source_sends, scanGists_sends. }
  frame.
Qed.

Lemma check_ledger s :
  exists s' new total tr,
    check s = (Ret tt, s') /\
    this s' = appended new (stamped (fst (date_now (world s))) (this s)) /\
    alerts (trace s') = alerts (trace s) ++ new /\
    trace s' =
      trace s ++ ELog (LScanning (fst (date_now (world s)))) :: tr ++
      [ELog (LScanned total (List.length new))] /\
    List.length new <= total.
Proof.
  destruct (check_with_stamped scanCodeSearch scanGists s)
    as [s0 [c1 [s1 [c2 [s2 [s3 [H0 [T0 [E1 [E2 [E [H3 T3]]]]]]]]]]]].
  pose proof (scan_source_sends LSearchingCode scanCodeSearch LErrorCode
                scanCodeSearch_sends ((0, 0), s0)) as G1.
  pose proof (scan_source_sends LScanningGists scanGists LErrorGists
                scanGists_sends (c1, s1)) as G2.
  rewrite E1 in G1. rewrite E2 in G2.
  destruct G1 as [_ [tr1 [G1 _]]]. destruct G2 as [_ [tr2 [G2 _]]].
  simpl in G1, G2.
  destruct (scan_source_ledger LSearchingCode scanCodeSearch LErrorCode
              (0, 0) s0) as [c1' [s1' [new1 [E1' [Hf1 [Ht1 [Hth1 Ha1]]]]]]];
    [discriminate | apply scanCodeSearch_ledger |].
  rewrite E1' in E1. injection E1 as <- <-.
  destruct (scan_source_ledger LScanningGists scanGists LErrorGists
              c1' s1') as [c2' [s2' [new2 [E2' [Hf2 [Ht2 [Hth2 Ha2]]]]]]];
    [discriminate | apply scanGists_ledger |].
  rewrite E2' in E2. injection E2 as <- <-.
  exists s3, (new1 ++ new2), (fst c2'), (tr1 ++ tr2).
  split; [exact E|]. split; [|split; [|split]].
  - now rewrite H3, Hth2, Hth1, H0, appended_app.
  - rewrite T3, alerts_app, Ha2, Ha1, T0, alerts_app. simpl.
    now rewrite !app_nil_r, app_assoc.
  - rewrite T3, G2, G1, T0, Hf2, Hf1, length_app. simpl.
    rewrite <- !app_assoc. simpl. reflexivity.
  - rewrite length_app. simpl in Ht1. lia.
Qed.

(** X6. The ledger of a tick.  [check] stamps [lastCheck] with the clock
    reading taken at its start and prints it first; it only ever appends to
    the findings; the findings it appends are exactly the ones it alerts, in
    the same order; the count of leaks it prints is their number, and that
    is at most the count of items it prints as scanned. *)
Theorem tick_ledger s :
  exists s' new total tr,
    check s = (Ret tt, s') /\
    this s' = appended new (stamped (fst (date_now (world s))) (this s)) /\
    alerts (trace s') = alerts (trace s) ++ new /\
    trace s' =
      trace s ++ ELog (LScanning (fst (date_now (world s)))) :: tr ++
      [ELog (LScanned total (List.length new))] /\
    List.length new <= total.
Proof. exact (check_ledger s). Qed.

(** X7. Every request of a tick is a code search with a query and a page
    size of 30, the public gist listing with a page size of 30, or a plain
    GET of a content locator, and each carries the token the client was
    created with. *)
Theorem tick_requests s :
  exists new,
    requests (trace (snd (check s))) = requests (trace s) ++ new /\
    Forall (tick_request (token (this s))) new.
Proof.
  destruct (check_sends s) as [_ [tr [E F]]].
  exists (requests tr). split; [|exact F]. now rewrite E, requests_app.
Qed.

(** ** Ticks one after another *)

Lemma check_with_both c g items1 items2 s :
  yields items1 c ->
  yields items2 g ->
  Forall (satisfies_rule (domains (this s))) (items1 ++ items2) ->
  exists s' new,
    check_with c g s = (Ret tt, s') /\
    findings (this s') = findings (this s) ++ new /\
    domains (this s') = domains (this s) /\
    Forall2 (derived_from (domains (this s))) (items1 ++ items2) new.
Proof.
  intros Hc Hg Hall. apply Forall_app in Hall. destruct Hall as [Hall1 Hall2].
  destruct (check_with_run c g s)
    as [s0 [c1 [s1 [c2 [s2 [s3 [Hf0 [Hd0 [E1 [E2 [E [H3 _]]]]]]]]]]]].
  rewrite <- Hd0 in Hall1.
  destruct (scan_source_matching LSearchingCode c LErrorCode items1
              (0, 0) s0 Hc Hall1) as [s1' [new1 [E1' [Hn1 [Hd1 Hder1]]]]].
  rewrite E1' in E1. injection E1 as <- <-.
  rewrite <- Hd0, <- Hd1 in Hall2.
  destruct (scan_source_matching LScanningGists g LErrorGists items2
              (List.length items1, List.length items1) s1' Hg Hall2)
    as [s2' [new2 [E2' [Hn2 [Hd2 Hder2]]]]].
  rewrite E2' in E2. injection E2 as <- <-.
  exists s3, (new1 ++ new2). split; [exact E|]. split; [|split].
  - now rewrite H3, Hn2, Hn1, Hf0, app_assoc.
  - now rewrite H3, Hd2, Hd1, Hd0.
  - rewrite Hd1 in Hder2. rewrite Hd0 in Hder1, Hder2.
    now apply Forall2_app.
Qed.

(** X8. Nothing is deduplicated across ticks: when the connectors return
    the same rule-satisfying items in two successive ticks, every item is
    reported twice, the findings of the second tick following those of the
    first. *)
Theorem findings_are_reported_again c g items1 items2 s :
  yields items1 c ->
  yields items2 g ->
  Forall (satisfies_rule (domains (this s))) (items1 ++ items2) ->
  exists s1 s2 new1 new2,
    check_with c g s = (Ret tt, s1) /\
    check_with c g s1 = (Ret tt, s2) /\
    findings (this s2) = findings (this s) ++ new1 ++ new2 /\
    Forall2 (derived_from (domains (this s))) (items1 ++ items2) new1 /\
    Forall2 (derived_from (domains (this s))) (items1 ++ items2) new2.
Proof.
  intros Hc Hg Hall.
  destruct (check_with_both c g items1 items2 s Hc Hg Hall)
    as [s1 [new1 [E1 [Hf1 [Hd1 Hder1]]]]].
  rewrite <- Hd1 in Hall.
  destruct (check_with_both c g items1 items2 s1 Hc Hg Hall)
    as [s2 [new2 [E2 [Hf2 [_ Hder2]]]]].
  exists s1, s2, new1, new2. rewrite Hd1 in Hder2.
  repeat split; try assumption. now rewrite Hf2, Hf1, app_assoc.
Qed.

(** ** The connectors as folds *)

(** X9. On a platform whose answer depends on the request only,
    [scanCodeSearch] returns, domain after domain, the hits of the password
    query and then of the api_key query, each pushed up to the first error:
    hits pushed before an error are kept, a failed first query skips the
    second, and no result of an earlier domain is ever lost. *)
Theorem scanCodeSearch_is_a_fold net s :
  (forall r w, fst (http_get r w) = net r) ->
  fst (scanCodeSearch s) =
    Ret (fold_left (fun r d => domain_results net (token (this s)) d r)
           (domains (this s)) []) /\
  forall d r, exists more,
    domain_results net (token (this s)) d r = r ++ more.
Proof.
  intros Hnet. split; [|intros d r; apply domain_results_extends].
  destruct (search_loop (token (this s))
              (fun d r r' _ => r' = domain_results net (token (this s)) d r))
    with (ds := domains (this s)) (results := @nil Item) (s := s)
    as [items [s' [reqs [E [_ [_ Hper]]]]]]; [|reflexivity|].
  { intros d results s0 Htok.
    destruct (search_domain_on_net net d results s0 Hnet) as [s1 [E1 H1]].
    rewrite Htok in E1.
    destruct (search_domain_shape d results s0)
      as [r1 [s1' [g [E1' [_ [R1 _]]]]]].
    rewrite E1 in E1'. injection E1' as <- <-.
    eexists _, s1, g. split; [exact E1|]. now repeat split. }
  apply per_domain_fold in Hper. subst items.
  now rewrite (scanCodeSearch_run _ _ _ E).
Qed.

Lemma per_domain_count tok ds : forall r r' reqs,
  per_domain (fun d _ _ g =>
      g = [password_query tok d] \/
      g = [password_query tok d; api_key_query tok d]) ds r r' reqs ->
  List.length ds <= List.length reqs <= 2 * List.length ds.
Proof.
  induction ds as [|d ds IH]; intros r r' reqs H;
    inversion H as [|d' ds' ra r1 rb g gs Hstep Hrest]; subst.
  - simpl. lia.
  - specialize (IH _ _ _ Hrest). rewrite length_app. simpl.
    destruct Hstep as [-> | ->]; simpl; lia.
Qed.

(** X10. [scanCodeSearch] sends at least one and at most two requests per
    watched domain, whatever the platform answers; with no watched domain
    it sends none. *)
Theorem scanCodeSearch_request_count s :
  exists new,
    requests (trace (snd (scanCodeSearch s))) = requests (trace s) ++ new /\
    List.length (domains (this s)) <= List.length new <=
      2 * List.length (domains (this s)).
Proof.
  destruct (search_loop (token (this s))
              (fun d _ _ g =>
                 g = [password_query (token (this s)) d] \/
                 g = [password_query (token (this s)) d;
                      api_key_query (token (this s)) d]))
    with (ds := domains (this s)) (results := @nil Item) (s := s)
    as [items [s' [reqs [E [_ [R Hper]]]]]]; [|reflexivity|].
  { intros d results s0 Htok.
    destruct (search_domain_shape d results s0) as [r1 [s1 [g [E1 [H1 [R1 Q1]]]]]].
    rewrite Htok in Q1. now exists r1, s1, g. }
  exists reqs. rewrite (scanCodeSearch_run _ _ _ E). simpl.
  split; [exact R|]. now apply per_domain_count in Hper.
Qed.

Lemma expand_all_good_prefix gs : forall results,
  snd (expand_all gs results) = results ++ flat_map expand (good_prefix gs).
Proof.
  induction gs as [|g gs IH]; intros results; simpl.
  - now rewrite app_nil_r.
  - unfold gist_entries.
    destruct (g_files g) as [fs|] eqn:Hf; simpl.
    + rewrite IH.
      assert (Hg : expand g = map (gist_result g) fs)
        by (unfold expand, gist_files; now rewrite Hf).
      now rewrite Hg, <- app_assoc.
    + now rewrite app_nil_r.
Qed.

(** X11. [scanGists] returns the files of the gists up to the first gist
    that has no [files]: a malformed gist ends the listing but the results
    of the gists before it are kept.  An answer that is not an array, like a
    failed fetch, gives the empty list. *)
Theorem scanGists_keeps_good_prefix s :
  fst (scanGists s) =
  Ret match fst (http_get (gists_request (token (this s))) (world s)) with
      | Ret (DGists gs) => flat_map expand (good_prefix gs)
      | _ => []
      end.
Proof.
  destruct (scanGists_run s) as [s' [E _]]. rewrite E. simpl.
  destruct (fst (http_get _ (world s))) as [[| |gs|]|]; try reflexivity.
  now rewrite expand_all_good_prefix.
Qed.

(** ** A single run and its summary *)

Lemma details_app tr1 tr2 : details (tr1 ++ tr2) = details tr1 ++ details tr2.
Proof.
  induction tr1 as [|[r|[]|l] tr1 IH]; simpl; rewrite ?IH; reflexivity.
Qed.

Lemma details_of_summary_lines fs : details (summary_lines fs) = fs.
Proof.
  unfold summary_lines. simpl.
  destruct fs as [|f fs]; [reflexivity|]. simpl. f_equal.
  induction fs as [|f' fs IH]; simpl; [reflexivity | now rewrite IH].
Qed.

Lemma alerts_of_summary_lines fs : alerts (summary_lines fs) = [].
Proof.
  unfold summary_lines. simpl.
  destruct (Nat.ltb 0 (List.length fs)); [|reflexivity]. simpl.
  induction fs as [|f fs IH]; [reflexivity | exact IH].
Qed.

Lemma github_get_details u q n :
  preserves (unchanged (fun s => details (trace s))) (github_get u q n).
Proof.
  intros s. unfold unchanged, github_get.
  destruct (http_get _ (world s)) as [o w]. simpl.
  rewrite details_app. simpl. now rewrite app_nil_r.
Qed.

Lemma new_Date_details :
  preserves (unchanged (fun s => details (trace s))) new_Date.
Proof. intros s. unfold unchanged, new_Date. now destruct (date_now (world s)). Qed.

Lemma console_error_details l :
  preserves (unchanged (fun s => details (trace s))) (console_error l).
Proof.
  intros s. unfold unchanged. simpl. rewrite details_app. simpl.
  now rewrite app_nil_r.
Qed.

Lemma console_log_details l :
  (forall f, l <> LDetail f) ->
  preserves (unchanged (fun s => details (trace s))) (console_log l).
Proof.
  intros Hl s. unfold unchanged. simpl. rewrite details_app.
  destruct l; simpl; rewrite ?app_nil_r; try reflexivity.
  now destruct (Hl f).
Qed.

Lemma push_findings_details fs :
  preserves (unchanged (fun s => details (trace s))) (push_findings fs).
Proof. intros s. reflexivity. Qed.

Lemma set_lastCheck_details ts :
  preserves (unchanged (fun s => details (trace s))) (set_lastCheck ts).
Proof. intros s. reflexivity. Qed.

Hint Resolve github_get_details new_Date_details console_error_details
  push_findings_details set_lastCheck_details : frame.
Hint Extern 1 (preserves (unchanged (fun s => details (trace s)))
                 (console_log _)) =>
  apply console_log_details; discriminate : frame.

Lemma check_details : preserves (unchanged (fun s => details (trace s))) check.
Proof.
  unfold check, check_with, scan_source, analyze_each, analyzeContent,
    resolveContent, alert, scanCodeSearch, search_domain, search_code,
    scanGists.
  frame.
Qed.

(** X12. A single run prints every accumulated finding in its summary, the
    ones found by its tick included, after having alerted each new one; it
    arms no timer and leaves [isRunning] set. *)
Theorem single_run_summary s :
  once (this s) = true ->
  exists s' new,
    start s = (Ret tt, s') /\
    findings (this s') = findings (this s) ++ new /\
    alerts (trace s') = alerts (trace s) ++ new /\
    details (trace s') = details (trace s) ++ findings (this s) ++ new /\
    timers s' = timers s /\
    isRunning (this s') = true.
Proof.
  intros Honce.
  set (s0 := snd ((set_isRunning true;; console_log LStarting) s)).
  destruct (check_ledger s0) as [s1 [new [total [tr [E [Ht [Ha _]]]]]]].
  destruct (check_schedule s0) as [s1' [E' [Hs _]]].
  rewrite E in E'. injection E' as <-.
  pose proof (check_details s0) as Hdet. rewrite E in Hdet.
  unfold unchanged in Hdet. simpl in Hdet.
  unfold settings_view in Hs. injection Hs as _ _ _ _ _ _ _ Htm _.
  unfold start.
  match goal with
  | |- context [bind (set_isRunning true)
                  (fun _ => bind (console_log LStarting) (fun _ => ?k))] =>
      change (bind (set_isRunning true)
                (fun _ => bind (console_log LStarting) (fun _ => k)) s)
        with (k s0)
  end.
  rewrite (bind_Ret _ _ _ _ _ E).
  unfold bind at 1. unfold gets at 1. rewrite Ht.
  change (once (appended new (stamped (fst (date_now (world s0))) (this s0))))
    with (once (this s)).
  rewrite Honce.
  unfold bind at 1.
  destruct (printSummary_run (snd (console_log LSingleScan s1)))
    as [s' [Es [H1 [H2 [_ H4]]]]].
  simpl in Es, H1, H2, H4 |- *. rewrite Es.
  assert (F : findings (this s1) = findings (this s) ++ new)
    by (rewrite Ht; reflexivity).
  assert (A1 : alerts (trace s1) = alerts (trace s) ++ new).
  { rewrite Ha. subst s0. simpl. rewrite alerts_app. simpl.
    now rewrite app_nil_r. }
  assert (D1 : details (trace s1) = details (trace s)).
  { rewrite Hdet. subst s0. simpl. rewrite details_app. simpl.
    now rewrite app_nil_r. }
  assert (R1 : isRunning (this s1) = true) by (rewrite Ht; reflexivity).
  exists s', new. split; [reflexivity|].
  rewrite H1, H2, H4, F, Htm, R1.
  rewrite !details_app, !alerts_app, details_of_summary_lines,
    alerts_of_summary_lines, D1, A1.
  simpl. rewrite !app_nil_r. repeat split.
Qed.

(** ** Verbosity *)

#[export] Instance silent_preorder : PreOrder silent.
Proof.
  split.
  - intros s. now split.
  - intros a b c [Hab Sab] [Hbc Sbc]. split; [congruence|].
    intros Hv. rewrite Sbc by congruence. now apply Sab.
Qed.

Lemma console_app tr1 tr2 : console (tr1 ++ tr2) = console tr1 ++ console tr2.
Proof. apply filter_app. Qed.

Lemma github_get_silent u q n : preserves silent (github_get u q n).
Proof.
  intros s. unfold github_get. destruct (http_get _ (world s)) as [o w].
  split; simpl; [reflexivity|]. intros _. rewrite console_app. simpl.
  apply app_nil_r.
Qed.

Hint Resolve github_get_silent : frame.

(** The handlers of the two connectors: they print only when verbose. *)
Lemma verbose_guard {L} l :
  preserves (on_global (L := L) silent)
    (v <- lift (gets (fun s => verbose (this s)));;
     when v (lift (console_error l))).
Proof.
  intros [r s]. unfold on_global, bind, lift, gets, when. simpl.
  destruct (verbose (this s)) eqn:Hv; simpl; split; simpl;
    try reflexivity; congruence.
Qed.

Lemma scanCodeSearch_silent : preserves silent scanCodeSearch.
Proof.
  unfold scanCodeSearch. apply preserves_with_locals.
  apply preserves_bind; [typeclasses eauto|frame|intros ds].
  apply preserves_bind; [typeclasses eauto| |intros _; frame].
  apply preserves_for_of; [typeclasses eauto|intros d].
  unfold search_domain.
  apply preserves_try_catch;
    [typeclasses eauto | unfold search_code; frame | intros e].
  apply verbose_guard.
Qed.

Lemma scanGists_silent : preserves silent scanGists.
Proof.
  unfold scanGists. apply preserves_with_locals.
  apply preserves_bind; [typeclasses eauto| |intros _; frame].
  apply preserves_try_catch; [typeclasses eauto | frame | intros e].
  apply verbose_guard.
Qed.

(** X13. With [verbose] off the two connectors print nothing, whatever
    fails inside them: a refused query, a failed listing or a malformed
    answer leaves no line on the console. *)
Theorem connectors_are_silent s :
  verbose (this s) = false ->
  console (trace (snd (scanCodeSearch s))) = console (trace s) /\
  console (trace (snd (scanGists s))) = console (trace s).
Proof.
  intros Hv. split.
  - now apply (scanCodeSearch_silent s).
  - now apply (scanGists_silent s).
Qed.

End Further.

(** ** Concrete runs for the further properties *)

Lemma stop_touches_nothing_else_witness :
  intervalId (this idle_acme) <> Some 7 /\
  exists s',
    stop idle_acme = (Ret tt, s') /\
    this s' = halted (this idle_acme) /\
    trace s' = trace idle_acme /\
    armed 7 s' = armed 7 idle_acme.
Proof.
  assert (H : intervalId (this idle_acme) <> Some 7) by discriminate.
  split; [exact H|].
  destruct (stop_touches_nothing_else (P := scripted offline) idle_acme)
    as [s' [E [Ht [_ [Htr Harm]]]]].
  exists s'. repeat split; try assumption. now apply Harm.
Defined.

Lemma second_start_leaks_a_timer_witness :
  once (this idle_acme) = false /\
  exists s1 s2 s3,
    start idle_acme = (Ret tt, s1) /\
    start s1 = (Ret tt, s2) /\
    stop s2 = (Ret tt, s3) /\
    isRunning (this s3) = false /\
    armed 1 s3 = false /\
    armed 0 s3 = true /\
    forall n, ticks (trace (due_times n 0 s3)) = ticks (trace s3) + n.
Proof.
  split; [reflexivity|].
  exact (second_start_leaks_a_timer (P := scripted offline) idle_acme eq_refl).
Defined.

(** The same run, evaluated: after start, start, stop the first timer is
    still armed. *)
Example leaked_timer :
  timers (snd (stop (snd (start (snd (start idle_acme)))))) =
  [{| timer_id := 0; timer_period := 1800000 |}].
Proof. reflexivity. Qed.

Lemma constructed_period_is_in_range_witness :
  opt_once {| opt_interval := Some 3000000000%Z; opt_verbose := None;
              opt_once := None; opt_token := None |} <> Some true /\
  (3000000000 < 0 \/ TIMEOUT_MAX < 3000000000)%Z /\
  exists s',
    start (fresh (P := scripted offline)
             (constructor ["acme.com"]
                {| opt_interval := Some 3000000000%Z; opt_verbose := None;
                   opt_once := None; opt_token := None |}) 0%Z) =
      (Ret tt, s') /\
    timers s' = [{| timer_id := 0; timer_period := 1%Z |}].
Proof.
  assert (H1 : opt_once {| opt_interval := Some 3000000000%Z;
                           opt_verbose := None; opt_once := None;
                           opt_token := None |} <> Some true)
    by discriminate.
  assert (H2 : (3000000000 < 0 \/ TIMEOUT_MAX < 3000000000)%Z)
    by (right; unfold TIMEOUT_MAX; lia).
  split; [exact H1|]. split; [exact H2|].
  destruct (constructed_period_is_in_range (P := scripted offline)
              ["acme.com"]
              {| opt_interval := Some 3000000000%Z; opt_verbose := None;
                 opt_once := None; opt_token := None |} 0%Z H1)
    as [s' [period [E [Ht [_ [_ [_ Hout]]]]]]].
  exists s'. split; [exact E|].
  now rewrite Ht, (Hout 3000000000%Z eq_refl H2).
Defined.

Lemma finding_describes_item_witness :
  exists f s',
    analyzeContent url_only_gist idle_acme = (Ret [f], s') /\
    In f [f] /\
    type f = gist /\
    url f = Some "https://github.com/foo/acme.com-configs" /\
    source f = Some "g1" /\
    path f = Some "notes.txt" /\
    String.length (snippet f) <= 200.
Proof.
  eexists. eexists. split; [reflexivity|]. split; [now left|].
  destruct (finding_describes_item (P := scripted offline)
              url_only_gist idle_acme _ _ _ eq_refl (or_introl eq_refl))
    as [H1 [H2 [H3 [H4 [H5 _]]]]].
  repeat split; assumption.
Defined.

Lemma findings_are_reported_again_witness :
  yields (P := scripted offline) [leaking_gist] (ret [leaking_gist]) /\
  yields (P := scripted offline) [url_only_gist] (ret [url_only_gist]) /\
  Forall (satisfies_rule (P := scripted offline) (domains (this idle_acme)))
    ([leaking_gist] ++ [url_only_gist]) /\
  exists s1 s2 new1 new2,
    check_with (ret [leaking_gist]) (ret [url_only_gist]) idle_acme =
      (Ret tt, s1) /\
    check_with (ret [leaking_gist]) (ret [url_only_gist]) s1 = (Ret tt, s2) /\
    findings (this s2) = findings (this idle_acme) ++ new1 ++ new2 /\
    Forall2 (derived_from (P := scripted offline) (domains (this idle_acme)))
      ([leaking_gist] ++ [url_only_gist]) new1 /\
    Forall2 (derived_from (P := scripted offline) (domains (this idle_acme)))
      ([leaking_gist] ++ [url_only_gist]) new2.
Proof.
  assert (H1 : yields (P := scripted offline) [leaking_gist]
                 (ret [leaking_gist])).
  { intros s. exists s. now split. }
  assert (H2 : yields (P := scripted offline) [url_only_gist]
                 (ret [url_only_gist])).
  { intros s. exists s. now split. }
  assert (H3 : Forall (satisfies_rule (P := scripted offline)
                         (domains (this idle_acme)))
                 ([leaking_gist] ++ [url_only_gist])).
  { repeat constructor.
    - apply gist_satisfies_rule with (ms := ["acme.com"]) (cs := ["api_key"]);
        [reflexivity | reflexivity |].
      split; [left|]; discriminate.
    - apply gist_satisfies_rule with (ms := []) (cs := ["password"]);
        [reflexivity | reflexivity |].
      split; [right|discriminate].
      apply url_mentions_spec. reflexivity. }
  split; [exact H1|]. split; [exact H2|]. split; [exact H3|].
  exact (findings_are_reported_again (P := scripted offline)
           _ _ _ _ idle_acme H1 H2 H3).
Defined.

(** Two ticks over the same leaking gist: two findings. *)
Example same_gist_twice :
  List.length
    (findings (this (snd (check_with (ret []) (ret [leaking_gist])
       (snd (check_with (ret []) (ret [leaking_gist]) idle_acme)))))) = 2.
Proof. reflexivity. Qed.

Lemma scanCodeSearch_is_a_fold_witness :
  (forall r w,
     fst (http_get (Platform := scripted half_answering) r w) =
     half_answering r) /\
  fst (scanCodeSearch half_answered) =
    Ret (map code_item (one_hit (password_query None "acme.com")) ++
         map code_item (one_hit (password_query None "example.org"))).
Proof.
  assert (H : forall r w,
            fst (http_get (Platform := scripted half_answering) r w) =
            half_answering r) by reflexivity.
  split; [exact H|].
  destruct (scanCodeSearch_is_a_fold (P := scripted half_answering)
              half_answering half_answered H) as [E _].
  exact E.
Defined.

(** The second gist of the listing has no files: only the first gist's file
    is returned. *)
Example broken_listing_is_cut :
  fst (scanGists broken_listed) =
  Ret [GistResult (Some "aa11") "a.txt" (Some "https://gist.github.com/aa11")
         (Some "password=1")].
Proof. reflexivity. Qed.

Lemma single_run_summary_witness :
  once (this single_run_acme) = true /\
  exists s' new,
    start single_run_acme = (Ret tt, s') /\
    findings (this s') = findings (this single_run_acme) ++ new /\
    alerts (trace s') = alerts (trace single_run_acme) ++ new /\
    details (trace s') =
      details (trace single_run_acme) ++
      findings (this single_run_acme) ++ new /\
    timers s' = timers single_run_acme /\
    isRunning (this s') = true.
Proof.
  split; [reflexivity|].
  exact (single_run_summary (P := scripted offline) single_run_acme eq_refl).
Defined.

Lemma connectors_are_silent_witness :
  verbose (this idle_acme) = false /\
  console (trace (snd (scanCodeSearch idle_acme))) =
    console (trace idle_acme) /\
  console (trace (snd (scanGists idle_acme))) = console (trace idle_acme).
Proof.
  split; [reflexivity|].
  exact (connectors_are_silent (P := scripted offline) idle_acme eq_refl).
Defined.



(** A gist file of 226 characters: the snippet is its first 200. *)
Example long_content_is_cut_at_200 :
  match fst (analyzeContent
               (GistResult (Some "g9") "dump.txt"
                  (Some "https://gist.github.com/g9")
                  (Some "acme.com password=hunter2 xxxxxxxxxxxxxxxxxxxxxxxxxxxxxxxxxxxxxxxxxxxxxxxxxxxxxxxxxxxxxxxxxxxxxxxxxxxxxxxxxxxxxxxxxxxxxxxxxxxxxxxxxxxxxxxxxxxxxxxxxxxxxxxxxxxxxxxxxxxxxxxxxxxxxxxxxxxxxxxxxxxxxxxxxxxxxxxxxxxxxxxxxxxxxxxxxxxxxxxx"))
               idle_acme) with
  | Ret [f] =>
      String.length (snippet f) = 200 /\
      String.prefix "acme.com password=hunter2 xxxx" (snippet f) = true
  | _ => False
  end.
Proof. split; reflexivity. Qed.
